(** * credential-auth: the session manager [AuthConfig] (auth.ts)

    A shallow embedding of the class [AuthConfig]: its constructor,
    [signIn], [setUser], [getUser], [checkAccessTokenIsExpired], [signOut],
    [applyAxiosMiddleware] and the private helpers they call.

    The class is stateful and talks to four collaborators: a Web [Storage]
    object, an event emitter, the [jose] token decoder and one or more axios
    clients.  Every method is embedded as a computation over a [World]
    (the fields of [this], the storage object, the payload objects on the
    JS heap, the axios clients) that also appends every call it makes to
    the outside, and every assignment to [this.user] / [this.authPayload],
    to a chronological [trace]. *)

From Stdlib Require Import ZArith String Ascii List.
From stdpp Require Import base option list strings gmap pretty.

Local Open Scope string_scope.
Local Open Scope list_scope.
Local Open Scope Z_scope.

(** ** Values *)

(** A thrown or rejected value; the code only logs and forwards it. *)
Definition Error := string.

(** JS [number]s that the manager handles are timestamps: [Date.now()] and
    the [exp] claim.  They are modelled as integers; the only operations
    are truthiness ([0] is falsy) and [>]. *)
Definition number := Z.

Definition truthy_number (n : option number) : bool :=
  match n with
  | Some z => negb (z =? 0)
  | None => false
  end.

Definition truthy_string (s : string) : bool :=
  match s with
  | EmptyString => false
  | String _ _ => true
  end.

(** [type User = { [key: string]: any; sub: string }] *)
Record User := mkUser {
  sub : string;
  attrs : list (string * string);
}.

(** [type AuthPayload = { readonly accessToken; readonly refreshToken; expiresIn? }] *)
Record AuthPayload := mkAuthPayload {
  accessToken : string;
  refreshToken : string;
  expiresIn : option number;
}.

Definition set_expiresIn (e : option number) (p : AuthPayload) : AuthPayload :=
  {| accessToken := accessToken p; refreshToken := refreshToken p; expiresIn := e |}.

(** The part of [jose.JWTPayload] the manager reads. *)
Record JWTPayload := mkJWTPayload {
  exp : option number;
  iat : option number;
}.

(** Outcome of a synchronous call. *)
Inductive Completion (A : Type) : Type :=
  | Return (a : A)
  | Throw (e : Error).
Arguments Return {A} a.
Arguments Throw {A} e.

(** State of a promise once the code that settles it has run.  A promise
    that nobody settles stays [Pending]. *)
Inductive Promise (A : Type) : Type :=
  | Pending
  | Fulfilled (a : A)
  | Rejected (e : Error).
Arguments Pending {A}.
Arguments Fulfilled {A} a.
Arguments Rejected {A} e.

(** The [resolve] and [reject] functions handed to a [new Promise] executor:
    only the first call settles the promise, later calls are ignored. *)
Definition resolve {A} (v : A) (p : Promise A) : Promise A :=
  match p with
  | Pending => Fulfilled v
  | _ => p
  end.

Definition reject {A} (e : Error) (p : Promise A) : Promise A :=
  match p with
  | Pending => Rejected e
  | _ => p
  end.

(** ** JSON.stringify on an [AuthPayload] *)

Definition dquote : ascii := "034"%char.
Definition backslash : ascii := "092"%char.

Definition hex_digit (n : nat) : ascii :=
  match String.get n "0123456789abcdef" with
  | Some c => c
  | None => "0"%char
  end.

(** QuoteJSONString, one code unit at a time. *)
Definition JSON_escape (c : ascii) : string :=
  let n := nat_of_ascii c in
  if (n =? 34)%nat then String backslash (String dquote EmptyString)
  else if (n =? 92)%nat then String backslash (String backslash EmptyString)
  else if (n =? 8)%nat then String backslash "b"
  else if (n =? 12)%nat then String backslash "f"
  else if (n =? 10)%nat then String backslash "n"
  else if (n =? 13)%nat then String backslash "r"
  else if (n =? 9)%nat then String backslash "t"
  else if (n <? 32)%nat then
    String backslash
      ("u00" +:+ String (hex_digit (n / 16)) (String (hex_digit (n mod 16)) EmptyString))
  else String c EmptyString.

Fixpoint JSON_escape_all (s : string) : string :=
  match s with
  | EmptyString => EmptyString
  | String c rest => JSON_escape c +:+ JSON_escape_all rest
  end.

Definition JSON_quote (s : string) : string :=
  String dquote (JSON_escape_all s +:+ String dquote EmptyString).

Definition JSON_member (name : string) (value : string) : string :=
  JSON_quote name +:+ ":" +:+ value.

(** Own enumerable properties in creation order; an [undefined] property
    is left out. *)
Definition JSON_stringify (p : AuthPayload) : string :=
  "{" +:+ JSON_member "accessToken" (JSON_quote (accessToken p))
      +:+ "," +:+ JSON_member "refreshToken" (JSON_quote (refreshToken p))
      +:+ match expiresIn p with
         | Some n => "," +:+ JSON_member "expiresIn" (pretty n)
         | None => EmptyString
         end
      +:+ "}".

(** ** The Web Storage object

    [getItem], [setItem] and [removeItem] over string keys.  A storage
    backend may fail on read or on write ([getItem_fault], [setItem_fault]:
    the error it throws, when it does); [removeItem] of the Web Storage
    interface has no failure mode and is a no-op on a missing key. *)
Record Storage := mkStorage {
  items : gmap string string;
  getItem_fault : option Error;
  setItem_fault : option Error;
}.

Definition Storage_getItem (s : Storage) (k : string) : Completion (option string) :=
  match getItem_fault s with
  | Some e => Throw e
  | None => Return (items s !! k)
  end.

Definition Storage_put (k v : string) (s : Storage) : Storage :=
  {| items := <[k := v]> (items s);
     getItem_fault := getItem_fault s;
     setItem_fault := setItem_fault s |}.

Definition Storage_setItem (s : Storage) (k v : string) : Completion Storage :=
  match setItem_fault s with
  | Some e => Throw e
  | None => Return (Storage_put k v s)
  end.

Definition Storage_removeItem (s : Storage) (k : string) : Storage :=
  {| items := delete k (items s);
     getItem_fault := getItem_fault s;
     setItem_fault := setItem_fault s |}.

(** ** axios clients

    An interceptor manager is an array of handlers; [use] pushes a handler
    and returns its index, [eject id] overwrites slot [id] with [null] when
    the slot exists.  Each client has one manager for requests and one for
    responses. *)
Inductive Interceptor :=
  | AuthRefreshInterceptor      (* installed by createAuthRefreshInterceptor *)
  | AuthorizationInterceptor    (* the request interceptor of applyAxiosMiddleware *)
  | ForeignInterceptor (tag : nat).

Record AxiosInstance := mkAxiosInstance {
  request_handlers : list (option Interceptor);
  response_handlers : list (option Interceptor);
}.

Definition InterceptorManager_use (hs : list (option Interceptor)) (h : Interceptor)
  : list (option Interceptor) * nat :=
  (hs ++ [Some h], length hs).

Definition InterceptorManager_eject (hs : list (option Interceptor)) (id : nat)
  : list (option Interceptor) :=
  <[id := None]> hs.

Definition request_use (h : Interceptor) (c : AxiosInstance) : AxiosInstance * nat :=
  let '(hs, id) := InterceptorManager_use (request_handlers c) h in
  ({| request_handlers := hs; response_handlers := response_handlers c |}, id).

Definition response_use (h : Interceptor) (c : AxiosInstance) : AxiosInstance * nat :=
  let '(hs, id) := InterceptorManager_use (response_handlers c) h in
  ({| request_handlers := request_handlers c; response_handlers := hs |}, id).

Definition request_eject (id : nat) (c : AxiosInstance) : AxiosInstance :=
  {| request_handlers := InterceptorManager_eject (request_handlers c) id;
     response_handlers := response_handlers c |}.

(** An interceptor installed by the manager is still attached to [c]. *)
Definition is_auth_interceptor (h : option Interceptor) : bool :=
  match h with
  | Some AuthRefreshInterceptor | Some AuthorizationInterceptor => true
  | _ => false
  end.

Definition attached (c : AxiosInstance) : bool :=
  existsb is_auth_interceptor (request_handlers c)
  || existsb is_auth_interceptor (response_handlers c).

(** ** The world the manager runs in *)

(** Address of a payload object on the JS heap, and of an axios client. *)
Definition loc := nat.
Definition client := nat.

Inductive AuthEvent := SIGNIN | SIGNOUT | SETUSER.

(** What [emitter.emit] is given next to the event name.  Payloads are
    passed by reference. *)
Inductive EventData :=
  | NoData
  | PayloadData (payload : loc)
  | SignInData (payload : loc) (user : User).

(** One entry per call that leaves the class and per assignment to
    [this.user] or [this.authPayload], in program order. *)
Inductive Effect :=
  | console_log (msg : string)
  | console_error (e : Error)
  | call_authorize (u : User)
  | call_handleRefreshToken (token : string)
  | call_signOutCallback
  | call_onSuccess (payload : loc)
  | storage_getItem (key : string)
  | storage_setItem (key value : string)
  | storage_removeItem (key : string)
  | emitter_emit (event : AuthEvent) (data : EventData)
  | assign_user (u : option User)
  | assign_authPayload (payload : loc)
  | interceptors_request_eject (c : client) (id : nat).

(** The private fields of [AuthConfig].  [authorize] resolves to a payload,
    or to a falsy value ([None]); the callbacks are given by the promise
    they return. *)
Record AuthConfig := mkAuthConfig {
  authorize : User -> Promise (option AuthPayload);
  signOutCallback : option (unit -> Promise unit);
  storageOptions_key : string;
  user : option User;
  authPayload : option loc;
  axiosInstance : option client;
  axiosInterceptorEjectIds : list nat;
}.

(** [this], the object [this.storageOptions.storage] refers to, the payload
    objects ([heap], with [next_loc] the first unused address), the axios
    clients, and what has happened so far. *)
Record World := mkWorld {
  this : AuthConfig;
  storage : Storage;
  heap : loc -> AuthPayload;
  next_loc : loc;
  clients : client -> AxiosInstance;
  trace : list Effect;
}.

Definition with_this (f : AuthConfig -> AuthConfig) (w : World) : World :=
  {| this := f (this w); storage := storage w; heap := heap w;
     next_loc := next_loc w; clients := clients w; trace := trace w |}.

Definition with_storage (s : Storage) (w : World) : World :=
  {| this := this w; storage := s; heap := heap w;
     next_loc := next_loc w; clients := clients w; trace := trace w |}.

Definition with_heap (h : loc -> AuthPayload) (n : loc) (w : World) : World :=
  {| this := this w; storage := storage w; heap := h;
     next_loc := n; clients := clients w; trace := trace w |}.

Definition with_clients (cs : client -> AxiosInstance) (w : World) : World :=
  {| this := this w; storage := storage w; heap := heap w;
     next_loc := next_loc w; clients := cs; trace := trace w |}.

Definition with_trace (t : list Effect) (w : World) : World :=
  {| this := this w; storage := storage w; heap := heap w;
     next_loc := next_loc w; clients := clients w; trace := t |}.

Definition put_key (k : string) (a : AuthConfig) : AuthConfig :=
  {| authorize := authorize a; signOutCallback := signOutCallback a;
     storageOptions_key := k; user := user a; authPayload := authPayload a;
     axiosInstance := axiosInstance a;
     axiosInterceptorEjectIds := axiosInterceptorEjectIds a |}.

Definition put_user (u : option User) (a : AuthConfig) : AuthConfig :=
  {| authorize := authorize a; signOutCallback := signOutCallback a;
     storageOptions_key := storageOptions_key a; user := u;
     authPayload := authPayload a; axiosInstance := axiosInstance a;
     axiosInterceptorEjectIds := axiosInterceptorEjectIds a |}.

Definition put_authPayload (l : option loc) (a : AuthConfig) : AuthConfig :=
  {| authorize := authorize a; signOutCallback := signOutCallback a;
     storageOptions_key := storageOptions_key a; user := user a;
     authPayload := l; axiosInstance := axiosInstance a;
     axiosInterceptorEjectIds := axiosInterceptorEjectIds a |}.

Definition put_axiosInstance (c : option client) (a : AuthConfig) : AuthConfig :=
  {| authorize := authorize a; signOutCallback := signOutCallback a;
     storageOptions_key := storageOptions_key a; user := user a;
     authPayload := authPayload a; axiosInstance := c;
     axiosInterceptorEjectIds := axiosInterceptorEjectIds a |}.

Definition put_ejectIds (ids : list nat) (a : AuthConfig) : AuthConfig :=
  {| authorize := authorize a; signOutCallback := signOutCallback a;
     storageOptions_key := storageOptions_key a; user := user a;
     authPayload := authPayload a; axiosInstance := axiosInstance a;
     axiosInterceptorEjectIds := ids |}.

(** Function update, for the heap and the clients. *)
Definition upd {A} (m : nat -> A) (i : nat) (x : A) : nat -> A :=
  fun j => if Nat.eqb j i then x else m j.

(** ** Computations

    A method body is a function from the world before to the world after
    and how the body ended: it ran to its end ([Fulfilled]), an exception
    escaped it ([Rejected]), or it is suspended at an [await] on a promise
    that never settles ([Pending]).  For an [async] method this outcome is
    the state of the promise the method returned. *)
Definition JS (A : Type) : Type := World -> World * Promise A.

Definition ret {A} (a : A) : JS A := fun w => (w, Fulfilled a).

Definition bind {A B} (m : JS A) (k : A -> JS B) : JS B :=
  fun w =>
    match m w with
    | (w1, Fulfilled a) => k a w1
    | (w1, Rejected e) => (w1, Rejected e)
    | (w1, Pending) => (w1, Pending)
    end.

Declare Scope js_scope.
Delimit Scope js_scope with js.
Notation "x <- m ;; k" := (bind m (fun x => k))
  (at level 100, m at next level, right associativity) : js_scope.
Notation "m ;; k" := (bind m (fun _ => k))
  (at level 100, right associativity) : js_scope.
Local Open Scope js_scope.

Definition throw {A} (e : Error) : JS A := fun w => (w, Rejected e).

(** [try { body } catch (error) { handler }] *)
Definition try_catch {A} (body : JS A) (handler : Error -> JS A) : JS A :=
  fun w =>
    match body w with
    | (w1, Rejected e) => handler e w1
    | r => r
    end.

(** [await p] *)
Definition await {A} (p : Promise A) : JS A := fun w => (w, p).

Definition lift {A} (c : Completion A) : JS A :=
  match c with
  | Return a => ret a
  | Throw e => throw e
  end.

Definition get : JS World := fun w => (w, Fulfilled w).

Definition modify (f : World -> World) : JS unit := fun w => (f w, Fulfilled tt).

Definition tell (e : Effect) : JS unit :=
  modify (fun w => with_trace (trace w ++ [e]) w).

(** [new Promise(executor)]: the promise is what the executor's calls to
    [resolve] and [reject] made of it; an executor that throws rejects. *)
Definition new_Promise {A} (executor : JS (Promise A)) : JS A :=
  fun w =>
    match executor w with
    | (w1, Fulfilled cell) => (w1, cell)
    | (w1, Rejected e) => (w1, Rejected e)
    | (w1, Pending) => (w1, Pending)
    end.

(** An object handed over by a callback gets an address of its own. *)
Definition alloc (p : AuthPayload) : JS loc :=
  fun w => (with_heap (upd (heap w) (next_loc w) p) (S (next_loc w)) w,
            Fulfilled (next_loc w)).

Definition set_user (u : option User) : JS unit :=
  tell (assign_user u) ;; modify (with_this (put_user u)).

Definition set_authPayload (l : loc) : JS unit :=
  tell (assign_authPayload l) ;; modify (with_this (put_authPayload (Some l))).

(** [this.storageOptions.storage.getItem(this.storageOptions.key)] *)
Definition storage_get : JS (option string) :=
  w <- get ;;
  tell (storage_getItem (storageOptions_key (this w))) ;;
  lift (Storage_getItem (storage w) (storageOptions_key (this w))).

(** [this.storageOptions.storage.setItem(this.storageOptions.key, v)] *)
Definition storage_set (v : string) : JS unit :=
  w <- get ;;
  tell (storage_setItem (storageOptions_key (this w)) v) ;;
  s <- lift (Storage_setItem (storage w) (storageOptions_key (this w)) v) ;;
  modify (with_storage s).

(** [this.storageOptions.storage.removeItem(this.storageOptions.key)] *)
Definition storage_remove : JS unit :=
  w <- get ;;
  tell (storage_removeItem (storageOptions_key (this w))) ;;
  modify (with_storage (Storage_removeItem (storage w) (storageOptions_key (this w)))).

(** ** Construction *)

(** [type AuthStorageOptions = { key?: string; storage?: Storage }] *)
Record AuthStorageOptions := mkAuthStorageOptions {
  opt_key : option string;
  opt_storage : option Storage;
}.

(** [type AuthConfigOptions] *)
Record AuthConfigOptions := mkAuthConfigOptions {
  opt_authorize : User -> Promise (option AuthPayload);
  opt_signOutCallback : option (unit -> Promise unit);
  opt_storageOptions : option AuthStorageOptions;
  opt_scope : option string;
}.

(** [a || b] on an optional string: the empty string is falsy as well. *)
Definition or_string (a : option string) (b : string) : string :=
  match a with
  | Some s => if truthy_string s then s else b
  | None => b
  end.

(** [private setStorageOptions = (storageOptions, scope?) => ...] *)
Definition setStorageOptions (storageOptions : AuthStorageOptions)
    (scope : option string) (w : World) : World :=
  let key := or_string (opt_key storageOptions) (storageOptions_key (this w)) in
  let key' :=
    match scope with
    | Some sc => if truthy_string sc then sc +:+ ":" +:+ key else key
    | None => key
    end in
  let st :=
    match opt_storage storageOptions with
    | Some s => s
    | None => storage w
    end in
  with_storage st (with_this (put_key key') w).

Definition empty_payload : AuthPayload :=
  mkAuthPayload EmptyString EmptyString None.
Definition fresh_client : AxiosInstance := mkAxiosInstance [] [].

(** The field initialisers followed by the constructor body.
    [localStorage] is the ambient storage object the initialiser of
    [storageOptions] refers to. *)
Definition constructor (localStorage : Storage) (o : AuthConfigOptions) : World :=
  let w0 :=
    {| this :=
         {| authorize := opt_authorize o;
            signOutCallback := opt_signOutCallback o;
            storageOptions_key := "token";
            user := None;
            authPayload := None;
            axiosInstance := None;
            axiosInterceptorEjectIds := [] |};
       storage := localStorage;
       heap := fun _ => empty_payload;
       next_loc := 0%nat;
       clients := fun _ => fresh_client;
       trace := [] |} in
  match opt_storageOptions o with
  | Some so => setStorageOptions so (opt_scope o) w0
  | None => w0
  end.

(** ** Methods *)

(** [private persistJWTTokenPayload = (payload) => ...] *)
Definition persistJWTTokenPayload (payload : loc) : JS unit :=
  w <- get ;;
  storage_set (JSON_stringify (heap w payload)).

(** [private tryOverrideTokenExpiration = (authPayload, jwtPayload) => ...] *)
Definition tryOverrideTokenExpiration (authPayload : loc) (jwtPayload : JWTPayload)
    : JS unit :=
  w <- get ;;
  if truthy_number (expiresIn (heap w authPayload)) then ret tt
  else if truthy_number (exp jwtPayload) then
    modify (fun w =>
      with_heap (upd (heap w) authPayload
                     (set_expiresIn (exp jwtPayload) (heap w authPayload)))
                (next_loc w) w)
  else ret tt.

(** [this.axiosInstance?.interceptors.request.eject(id)] for every [id] *)
Fixpoint forEach_eject (ids : list nat) : JS unit :=
  match ids with
  | [] => ret tt
  | id :: rest =>
      w <- get ;;
      match axiosInstance (this w) with
      | Some c =>
          tell (interceptors_request_eject c id) ;;
          modify (fun w => with_clients (upd (clients w) c (request_eject id (clients w c))) w)
      | None => ret tt
      end ;;
      forEach_eject rest
  end.

(** [private ejectTriggeredInterceptors = () => ...] *)
Definition ejectTriggeredInterceptors : JS unit :=
  w <- get ;;
  match axiosInterceptorEjectIds (this w) with
  | [] => ret tt
  | ids =>
      forEach_eject ids ;;
      modify (with_this (put_ejectIds []))
  end.

(** [public setUser = (payload) => new Promise((resolve, reject) => ...)] *)
Definition setUser (payload : loc) : JS unit :=
  new_Promise
    (try_catch
       (set_authPayload payload ;;
        persistJWTTokenPayload payload ;;
        tell (emitter_emit SETUSER (PayloadData payload)) ;;
        tell (console_log "The user payload has been successfully updated.") ;;
        ret (resolve tt Pending))
       (fun error =>
          tell (console_error error) ;;
          ret (reject error Pending))).

(** [public getUser = () => new Promise((resolve, reject) => ...)] *)
Definition getUser : JS (option User) :=
  new_Promise
    (try_catch
       (payload <- storage_get ;;
        match payload with
        | None => ret (resolve None Pending)
        | Some _ =>
            w <- get ;;
            ret (resolve (user (this w)) Pending)
        end)
       (fun error =>
          tell (console_error error) ;;
          let promise := reject error Pending in
          ret (resolve None promise))).

(** [public signIn = async (user, onSuccess?) => ...] *)
Definition signIn (user0 : User) (onSuccess : option (AuthPayload -> Completion unit))
    : JS unit :=
  try_catch
    (w <- get ;;
     tell (call_authorize user0) ;;
     r <- await (authorize (this w) user0) ;;
     match r with
     | None =>
         tell (console_error "The authorize callback returns some invalid data")
     | Some p =>
         payload <- alloc p ;;
         set_user (Some user0) ;;
         setUser payload ;;
         tell (emitter_emit SIGNIN (SignInData payload user0)) ;;
         tell (console_log "The user has beed successfully signed in") ;;
         match onSuccess with
         | Some f =>
             w <- get ;;
             tell (call_onSuccess payload) ;;
             lift (f (heap w payload))
         | None => ret tt
         end
     end)
    (fun error =>
       tell (console_error error) ;;
       set_user None ;;
       storage_remove).

(** [public signOut = async () => ...] *)
Definition signOut : JS unit :=
  storage_remove ;;
  set_user None ;;
  ejectTriggeredInterceptors ;;
  tell (emitter_emit SIGNOUT NoData) ;;
  w <- get ;;
  match signOutCallback (this w) with
  | Some cb => tell call_signOutCallback ;; await (cb tt)
  | None => ret tt
  end.

(** [public applyAxiosMiddleware = (instance) => ...].
    [createAuthRefreshInterceptor(instance, ...)] registers its handler with
    [instance.interceptors.response.use] and returns that id. *)
Definition applyAxiosMiddleware (instance : client) : JS unit :=
  modify (with_this (put_axiosInstance (Some instance))) ;;
  w <- get ;;
  let '(c1, id1) := response_use AuthRefreshInterceptor (clients w instance) in
  modify (with_clients (upd (clients w) instance c1)) ;;
  modify (with_this (fun a => put_ejectIds (axiosInterceptorEjectIds a ++ [id1]) a)) ;;
  w <- get ;;
  let '(c2, id2) := request_use AuthorizationInterceptor (clients w instance) in
  modify (with_clients (upd (clients w) instance c2)) ;;
  modify (with_this (fun a => put_ejectIds (axiosInterceptorEjectIds a ++ [id2]) a)).

Section TokenDecoder.

  (** [jose.decodeJwt], the token decoder.  The manager compares its result
      with [null] and does not catch what it throws. *)
Variable decodeJwt : string -> Completion (option JWTPayload).

  (** [public checkAccessTokenIsExpired = async (handleRefreshToken) => ...].
      [now] is what [Date.now()] returns when the expiry test reads it. *)
Definition checkAccessTokenIsExpired (now : number)
      (handleRefreshToken : string -> Promise AuthPayload) : JS unit :=
    w <- get ;;
    match authPayload (this w) with
    | None => ret tt
    | Some l =>
        if negb (truthy_string (accessToken (heap w l))) then ret tt
        else
          payload <- lift (decodeJwt (accessToken (heap w l))) ;;
          match payload with
          | None => ret tt
          | Some jwtPayload =>
              tryOverrideTokenExpiration l jwtPayload ;;
              w <- get ;;
              if truthy_number (expiresIn (heap w l))
                 && (match expiresIn (heap w l) with
                     | Some e => now >? e
                     | None => false
                     end)
              then
                try_catch
                  (tell (call_handleRefreshToken (refreshToken (heap w l))) ;;
                   newPayload <- await (handleRefreshToken (refreshToken (heap w l))) ;;
                   l' <- alloc newPayload ;;
                   setUser l')
                  (fun error =>
                     tell (console_error error) ;;
                     ejectTriggeredInterceptors ;;
                     storage_remove ;;
                     set_user None)
              else ret tt
          end
    end.

End TokenDecoder.

(** ** The decoder the module imports

    [jose.decodeJwt(jwt)] splits the compact serialization at the dots and
    throws [JWTInvalid] unless there are exactly three segments and the
    middle one is non-empty; it then decodes the middle segment
    ([decode_claims]: base64url, [JSON.parse], object check, each of which
    throws on failure).  It has no [null] result. *)
Fixpoint split_dot (s : string) : list string :=
  match s with
  | EmptyString => [EmptyString]
  | String c rest =>
      if Ascii.eqb c "."%char then EmptyString :: split_dot rest
      else match split_dot rest with
           | seg :: segs => String c seg :: segs
           | [] => [String c EmptyString]
           end
  end.

Definition jose_decodeJwt (decode_claims : string -> Completion JWTPayload)
    (jwt : string) : Completion (option JWTPayload) :=
  match split_dot jwt with
  | [_; payload; _] =>
      if truthy_string payload then
        match decode_claims payload with
        | Return claims => Return (Some claims)
        | Throw e => Throw e
        end
      else Throw "JWTs must contain a payload"
  | [_; _; _; _; _] => Throw "Only JWTs using Compact JWS serialization can be decoded"
  | _ => Throw "Invalid JWT"
  end.

(** ** Derived notions used in the statements *)

(** The value [this.authPayload.expiresIn] has once
    [tryOverrideTokenExpiration] has run. *)
Definition expiry_after_override (p : AuthPayload) (jwtPayload : JWTPayload)
    : option number :=
  if truthy_number (expiresIn p) then expiresIn p
  else if truthy_number (exp jwtPayload) then exp jwtPayload
  else expiresIn p.

(** The test of line 158: [expiresIn && Date.now() > expiresIn]. *)
Definition expired (now : number) (e : option number) : bool :=
  truthy_number e && match e with
                     | Some t => now >? t
                     | None => false
                     end.

(** What the [forEach] of [ejectTriggeredInterceptors] does to the client
    it is aimed at, and what it adds to the trace. *)
Definition eject_all (ids : list nat) (c : AxiosInstance) : AxiosInstance :=
  fold_left (fun c id => request_eject id c) ids c.

Definition eject_loop (c : client) (ids : list nat) (cs : client -> AxiosInstance)
    : client -> AxiosInstance :=
  fold_left (fun cs id => upd cs c (request_eject id (cs c))) ids cs.

Definition eject_trace (target : option client) (ids : list nat) : list Effect :=
  match target with
  | Some c => map (interceptors_request_eject c) ids
  | None => []
  end.

(** The world [ejectTriggeredInterceptors] leaves behind. *)
Definition after_eject (w : World) : World :=
  match axiosInterceptorEjectIds (this w) with
  | [] => w
  | ids =>
      with_this (put_ejectIds [])
        match axiosInstance (this w) with
        | Some c =>
            with_clients (eject_loop c ids (clients w))
              (with_trace (trace w ++ map (interceptors_request_eject c) ids) w)
        | None => w
        end
  end.

(** The world [tryOverrideTokenExpiration] leaves behind. *)
Definition after_override (l : loc) (jwtPayload : JWTPayload) (w : World) : World :=
  if truthy_number (expiresIn (heap w l)) then w
  else if truthy_number (exp jwtPayload) then
    with_heap (upd (heap w) l (set_expiresIn (exp jwtPayload) (heap w l)))
              (next_loc w) w
  else w.

(** The world the [catch] block of [checkAccessTokenIsExpired] leaves
    behind: log, eject, remove the token, clear the user. *)
Definition torn_down (e : Error) (w : World) : World :=
  let w1 := after_eject (with_trace (trace w ++ [console_error e]) w) in
  let key := storageOptions_key (this w1) in
  with_this (put_user None)
    (with_trace (trace w1 ++ [storage_removeItem key; assign_user None])
       (with_storage (Storage_removeItem (storage w1) key) w1)).

Definition signOutCallback_trace (w : World) : list Effect :=
  match signOutCallback (this w) with
  | Some _ => [call_signOutCallback]
  | None => []
  end.

(** What the promise of [signOut] becomes: the promise of the callback
    when there is one. *)
Definition signOut_outcome (w : World) : Promise unit :=
  match signOutCallback (this w) with
  | Some cb => cb tt
  | None => Fulfilled tt
  end.

(** The world [signOut] leaves behind. *)
Definition signed_out (w : World) : World :=
  let key := storageOptions_key (this w) in
  let w1 :=
    after_eject
      (with_this (put_user None)
         (with_trace (trace w ++ [storage_removeItem key; assign_user None])
            (with_storage (Storage_removeItem (storage w) key) w))) in
  with_trace (trace w1 ++ [emitter_emit SIGNOUT NoData] ++ signOutCallback_trace w) w1.

Definition is_SIGNOUT (e : Effect) : bool :=
  match e with
  | emitter_emit SIGNOUT _ => true
  | _ => false
  end.

Definition is_SETUSER (e : Effect) : bool :=
  match e with
  | emitter_emit SETUSER _ => true
  | _ => false
  end.

Definition is_signOutCallback (e : Effect) : bool :=
  match e with
  | call_signOutCallback => true
  | _ => false
  end.

(** Calls that reach the network go through one of the injected callbacks. *)
Definition is_network_call (e : Effect) : bool :=
  match e with
  | call_authorize _ | call_handleRefreshToken _ | call_signOutCallback => true
  | _ => false
  end.

(** The key a storage call was made with. *)
Definition storage_key_of (e : Effect) : option string :=
  match e with
  | storage_getItem k | storage_setItem k _ | storage_removeItem k => Some k
  | _ => None
  end.

Definition uses_key (k0 : string) (e : Effect) : Prop :=
  forall k, storage_key_of e = Some k -> k = k0.

(** A computation that, started with [k0] as the configured key, keeps
    that key and makes all its storage calls with it. *)
Definition keyed (k0 : string) {A} (m : JS A) : Prop :=
  forall w, storageOptions_key (this w) = k0 ->
    storageOptions_key (this (fst (m w))) = k0 /\
    exists added, trace (fst (m w)) = trace w ++ added /\ Forall (uses_key k0) added.

(** The call [onSuccess(payload)], when a callback was passed, returns. *)
Definition onSuccess_returns (onSuccess : option (AuthPayload -> Completion unit))
    (p : AuthPayload) : Prop :=
  match onSuccess with
  | Some f => f p = Return tt
  | None => True
  end.

Definition onSuccess_trace (onSuccess : option (AuthPayload -> Completion unit))
    (payload : loc) : list Effect :=
  match onSuccess with
  | Some _ => [call_onSuccess payload]
  | None => []
  end.

(** ** Sample sessions *)

Definition u1 : User := mkUser "u1" [].
Definition u0 : User := mkUser "u0" [].

Definition empty_store : Storage := mkStorage ∅ None None.

(** An empty storage with no room left: every write throws. *)
Definition full_store : Storage := mkStorage ∅ None (Some "QuotaExceededError").

(** The bootstrap of the repository: [authorize] resolves to
    [{ accessToken: "access token", refreshToken: "refresh token" }]. *)
Definition bootstrap_payload : AuthPayload :=
  mkAuthPayload "access token" "refresh token" None.

Definition bootstrap_options : AuthConfigOptions :=
  mkAuthConfigOptions (fun _ => Fulfilled (Some bootstrap_payload)) None None None.

Definition bootstrap (s : Storage) : World := constructor s bootstrap_options.

(** The bootstrap session after [signIn({ sub: "u1" })]. *)
Definition signed_in : World := fst (signIn u1 None (bootstrap empty_store)).

(** That session once the token has been removed from the storage behind
    the manager's back, once the storage refuses reads, and once it
    refuses writes. *)
Definition token_cleared : World :=
  with_storage (Storage_removeItem (storage signed_in) "token") signed_in.

Definition reads_fail : World :=
  with_storage
    (mkStorage (items (storage signed_in)) (Some "SecurityError") None) signed_in.

Definition writes_fail : World :=
  with_storage
    (mkStorage (items (storage signed_in)) None (Some "QuotaExceededError")) signed_in.

(** A manager whose [authorize] knows the subject [u1] only: for anybody
    else it resolves to [null] ([authorize_null]) or rejects
    ([authorize_rejecting]).  Both sessions are taken after
    [signIn({ sub: "u1" })]. *)
Definition only_u1 (otherwise : Promise (option AuthPayload)) (u : User)
    : Promise (option AuthPayload) :=
  if String.eqb (sub u) "u1" then Fulfilled (Some bootstrap_payload) else otherwise.

Definition authorize_null : World :=
  fst (signIn u1 None
         (constructor empty_store
            (mkAuthConfigOptions (only_u1 (Fulfilled None)) None None None))).

Definition authorize_rejecting : World :=
  fst (signIn u1 None
         (constructor empty_store
            (mkAuthConfigOptions (only_u1 (Rejected "401")) None None None))).

(** [new AuthConfig({ authorize, scope: "app" })] *)
Definition scoped_options : AuthConfigOptions :=
  mkAuthConfigOptions (fun _ => Fulfilled (Some bootstrap_payload)) None None (Some "app").

(** [new AuthConfig({ authorize, scope: "app", storageOptions: {} })] *)
Definition scoped_options_with_storage : AuthConfigOptions :=
  mkAuthConfigOptions (fun _ => Fulfilled (Some bootstrap_payload)) None
    (Some (mkAuthStorageOptions None None)) (Some "app").

(** A decoder for tokens whose claims carry [exp = 1700000000], and one
    that rejects everything the way [jose] does. *)
Definition decode_exp : string -> Completion (option JWTPayload) :=
  fun _ => Return (Some (mkJWTPayload (Some 1700000000) None)).

Definition jose_strict : string -> Completion (option JWTPayload) :=
  jose_decodeJwt (fun _ => Throw "Failed to base64url decode the payload").

Definition refresh_rejects : string -> Promise AuthPayload := fun _ => Rejected "401".

(** Another decoder, for tokens whose claims carry [exp = 42]. *)
Definition decode_exp_42 : string -> Completion (option JWTPayload) :=
  fun _ => Return (Some (mkJWTPayload (Some 42) None)).

(** The bootstrap session after a first expiry check at time [5], which
    fills [expiresIn] from the [exp] claim. *)
Definition derived_session : World :=
  fst (checkAccessTokenIsExpired decode_exp 5 refresh_rejects signed_in).

(** A reading of [Date.now()], in milliseconds, later than [decode_exp]'s
    claim. *)
Definition late : number := 1800000000000.

(** A session whose payload was supplied with [expiresIn: 0]. *)
Definition zero_expiry_payload : AuthPayload := mkAuthPayload "h.c.s" "r" (Some 0).

Definition zero_expiry_session : World :=
  fst (signIn u1 None
         (constructor empty_store
            (mkAuthConfigOptions (fun _ => Fulfilled (Some zero_expiry_payload))
               None None None))).

(** The signed-in session with the middleware applied to client [0], and
    to clients [0] and then [1]. *)
Definition one_client : World := fst (applyAxiosMiddleware 0%nat signed_in).
Definition two_clients : World := fst (applyAxiosMiddleware 1%nat one_client).

(** ** Reading a JSON string literal back

    [JSON_unescape_head s] reads one escaped code unit from the front of
    [s], the inverse of [JSON_escape]; it stops ([None]) at the closing
    quote. *)
Definition hex_value (c : ascii) : option nat :=
  let n := nat_of_ascii c in
  if ((48 <=? n) && (n <=? 57))%nat then Some (n - 48)%nat
  else if ((97 <=? n) && (n <=? 102))%nat then Some (n - 87)%nat
  else None.

Definition JSON_unescape_head (s : string) : option (ascii * string) :=
  match s with
  | EmptyString => None
  | String c rest =>
      if Ascii.eqb c dquote then None
      else if Ascii.eqb c backslash then
        match rest with
        | String e rest' =>
            if Ascii.eqb e dquote then Some (dquote, rest')
            else if Ascii.eqb e backslash then Some (backslash, rest')
            else if Ascii.eqb e "b"%char then Some ("008"%char, rest')
            else if Ascii.eqb e "f"%char then Some ("012"%char, rest')
            else if Ascii.eqb e "n"%char then Some ("010"%char, rest')
            else if Ascii.eqb e "r"%char then Some ("013"%char, rest')
            else if Ascii.eqb e "t"%char then Some ("009"%char, rest')
            else if Ascii.eqb e "u"%char then
              match rest' with
              | String _ (String _ (String h (String l rest''))) =>
                  match hex_value h, hex_value l with
                  | Some hv, Some lv => Some (ascii_of_nat (16 * hv + lv), rest'')
                  | _, _ => None
                  end
              | _ => None
              end
            else None
        | EmptyString => None
        end
      else Some (c, rest)
  end.

(** ** The event bus: [subscribe] and [unsubscribe]

    The emitter keeps its registrations in the order they were made;
    [callback] is the identity of a listener function.  The function
    [subscribe] returns is a closure over the event and the callback; the
    class keeps the latest such closure per event in the [subscribers]
    map. *)
Definition callback := nat.

#[global] Instance AuthEvent_eq_dec : EqDecision AuthEvent.
Proof. solve_decision. Defined.

Definition AuthEvent_code (e : AuthEvent) : nat :=
  match e with
  | SIGNIN => 0
  | SIGNOUT => 1
  | SETUSER => 2
  end%nat.

Definition AuthEvent_of_code (n : nat) : AuthEvent :=
  match n with
  | O => SIGNIN
  | S O => SIGNOUT
  | _ => SETUSER
  end.

#[global] Instance AuthEvent_countable : Countable AuthEvent :=
  inj_countable' AuthEvent_code AuthEvent_of_code
    (fun e => match e with SIGNIN | SIGNOUT | SETUSER => eq_refl end).

(** [const unsubscribe = () => { emitter.off(event, callback);
    subscribers.delete(event) }] *)
Record Unsubscribe := mkUnsubscribe {
  unsub_event : AuthEvent;
  unsub_callback : callback;
}.

#[global] Instance Unsubscribe_eq_dec : EqDecision Unsubscribe.
Proof. solve_decision. Defined.

Record EventBus := mkEventBus {
  listeners : list (AuthEvent * callback);
  subscribers : gmap AuthEvent Unsubscribe;
}.

(** [emitter.on(event, callback)] *)
Definition emitter_on (event : AuthEvent) (cb : callback)
    (ls : list (AuthEvent * callback)) : list (AuthEvent * callback) :=
  ls ++ [(event, cb)].

(** [emitter.off(event, callback)]: the first registration of that callback
    for that event goes, if there is one. *)
Fixpoint emitter_off (event : AuthEvent) (cb : callback)
    (ls : list (AuthEvent * callback)) : list (AuthEvent * callback) :=
  match ls with
  | [] => []
  | r :: rest =>
      if decide (r = (event, cb)) then rest
      else r :: emitter_off event cb rest
  end.

(** The callbacks [emitter.emit(event, ...)] calls, in order. *)
Definition emitter_listeners (event : AuthEvent) (b : EventBus) : list callback :=
  map snd (filter (fun r => fst r = event) (listeners b)).

(** Calling the closure. *)
Definition call_unsubscribe (u : Unsubscribe) (b : EventBus) : EventBus :=
  {| listeners := emitter_off (unsub_event u) (unsub_callback u) (listeners b);
     subscribers := delete (unsub_event u) (subscribers b) |}.

(** [public subscribe = (event, callback) => ...] *)
Definition subscribe (event : AuthEvent) (cb : callback) (b : EventBus)
    : EventBus * Unsubscribe :=
  let unsubscribe := mkUnsubscribe event cb in
  ({| listeners := emitter_on event cb (listeners b);
      subscribers := <[event := unsubscribe]> (subscribers b) |},
   unsubscribe).

(** [public unsubscribe = (event) => { this.subscribers.get(event)?.() }] *)
Definition unsubscribe (event : AuthEvent) (b : EventBus) : EventBus :=
  match subscribers b !! event with
  | Some u => call_unsubscribe u b
  | None => b
  end.

(** Every closure in the map sits under the event it was made for. *)
Definition slots_match (b : EventBus) : Prop :=
  forall event u, subscribers b !! event = Some u -> unsub_event u = event.

(** ** The two interceptors of [applyAxiosMiddleware]

    Both are closures over [this]: they read [this.authPayload] when they
    run, not when they are registered. *)
Record AxiosResponse := mkAxiosResponse {
  res_status : nat;
  res_headers : gmap string string;
}.

(** [AxiosError]: [response] is absent for a failure below HTTP. *)
Record AxiosError := mkAxiosError {
  err_message : string;
  err_response : option AxiosResponse;
}.

Record RequestConfig := mkRequestConfig {
  cfg_url : string;
  cfg_headers : gmap string string;
}.

(** What the failure handler returns: [Promise.resolve(failedRequest)] or
    [Promise.reject(failedRequest)]. *)
Inductive HandlerOutcome :=
  | handler_resolve (failedRequest : AxiosError)
  | handler_reject (failedRequest : AxiosError).

(** [`Bearer ${accessToken}`] *)
Definition bearer (token : string) : string := "Bearer " +:+ token.

(** The callback given to [createAuthRefreshInterceptor] (lines 189-210). *)
Definition onFailedRequest (w : World) (failedRequest : AxiosError) : HandlerOutcome :=
  match err_response failedRequest with
  | None => handler_reject failedRequest
  | Some res =>
      match authPayload (this w) with
      | Some l =>
          let token := accessToken (heap w l) in
          if truthy_string token then
            handler_resolve
              {| err_message := err_message failedRequest;
                 err_response :=
                   Some {| res_status := res_status res;
                           res_headers :=
                             <["authorization" := bearer token]> (res_headers res) |} |}
          else handler_reject failedRequest
      | None => handler_reject failedRequest
      end
  end.

(** The callback given to [instance.interceptors.request.use]
    (lines 214-224). *)
Definition onRequest (w : World) (config : RequestConfig) : RequestConfig :=
  match authPayload (this w) with
  | Some l =>
      let token := accessToken (heap w l) in
      if truthy_string token then
        {| cfg_url := cfg_url config;
           cfg_headers := <["authorization" := bearer token]> (cfg_headers config) |}
      else config
  | None => config
  end.

(** ** Relations between the world before and after a method *)

(** A computation whose final world is always related to its initial
    world by [R]. *)
Definition preserves (R : World -> World -> Prop) {A} (m : JS A) : Prop :=
  forall w, R w (fst (m w)).

(** No payload object that exists loses or changes its tokens, and no
    address is given out twice. *)
Definition tokens_kept (w w' : World) : Prop :=
  (next_loc w <= next_loc w')%nat /\
  forall l, (l < next_loc w)%nat ->
    accessToken (heap w' l) = accessToken (heap w l) /\
    refreshToken (heap w' l) = refreshToken (heap w l).

(** [this.authPayload], once set, is never set back to [null]. *)
Definition payload_stays (w w' : World) : Prop :=
  is_Some (authPayload (this w)) -> is_Some (authPayload (this w')).

(** Only the trace differs. *)
Definition same_state (w w' : World) : Prop :=
  this w' = this w /\ storage w' = storage w /\ heap w' = heap w /\
  next_loc w' = next_loc w /\ clients w' = clients w.

(** ** Running a method body *)

Ltac js_unfold :=
  unfold getUser, setUser, signIn, signOut, persistJWTTokenPayload,
    tryOverrideTokenExpiration, ejectTriggeredInterceptors,
    storage_get, storage_set, storage_remove, set_user, set_authPayload,
    new_Promise, try_catch, alloc, lift, tell, modify, get, await, bind, ret, throw.

Ltac js_run := js_unfold; cbn.

Ltac flatten_trace := cbn; rewrite <- ?app_assoc; cbn.

(** * Properties *)

(** ** The encoder and the decoder on small inputs *)

Example JSON_escape_backslash : JSON_escape_all "a\b" = "a\\b".
Proof. reflexivity. Qed.

Example JSON_escape_newline :
  JSON_escape_all (String "010"%char EmptyString) = "\n".
Proof. reflexivity. Qed.

Example JSON_escape_control :
  JSON_escape_all (String "031"%char EmptyString) = "\u001f".
Proof. reflexivity. Qed.

Example JSON_stringify_with_expiry :
  JSON_stringify (mkAuthPayload "a" "b" (Some 7)) =
  "{" +:+ JSON_quote "accessToken" +:+ ":" +:+ JSON_quote "a"
      +:+ "," +:+ JSON_quote "refreshToken" +:+ ":" +:+ JSON_quote "b"
      +:+ "," +:+ JSON_quote "expiresIn" +:+ ":7}".
Proof. reflexivity. Qed.

Example JSON_stringify_bootstrap_length :
  String.length (JSON_stringify bootstrap_payload) = 61%nat.
Proof. reflexivity. Qed.

Example split_dot_three : split_dot "h.c.s" = ["h"; "c"; "s"].
Proof. reflexivity. Qed.

Example split_dot_none : split_dot "access token" = ["access token"].
Proof. reflexivity. Qed.

Example jose_rejects_two_segments :
  jose_decodeJwt (fun _ => Return (mkJWTPayload None None)) "h.c" = Throw "Invalid JWT".
Proof. reflexivity. Qed.

Example jose_decodes_three_segments :
  jose_decodeJwt (fun _ => Return (mkJWTPayload (Some 9) None)) "h.c.s"
  = Return (Some (mkJWTPayload (Some 9) None)).
Proof. reflexivity. Qed.

(** ** Promise cells settle once *)

Lemma resolve_after_reject {A} (v : A) (e : Error) :
  resolve v (reject e Pending) = Rejected e.
Proof. reflexivity. Qed.

Lemma reject_after_resolve {A} (v : A) (e : Error) :
  reject e (resolve v Pending) = Fulfilled v.
Proof. reflexivity. Qed.

(** ** Storage *)

Section StorageFacts.
Variable s : Storage.
Variables k : string.

Lemma removeItem_lookup : items (Storage_removeItem s k) !! k = None.
  Proof. cbn. apply lookup_delete_eq. Qed.

Lemma removeItem_other (k' : string) :
    k' <> k -> items (Storage_removeItem s k) !! k' = items s !! k'.
  Proof. intros Hne. cbn. by apply lookup_delete_ne. Qed.

Lemma setItem_lookup (v : string) (s' : Storage) :
    Storage_setItem s k v = Return s' -> items s' !! k = Some v.
  Proof.
    unfold Storage_setItem. destruct (setItem_fault s); intros [= <-].
    cbn. apply lookup_insert_eq.
  Qed.

Lemma setItem_throws_iff (v : string) (e : Error) :
    Storage_setItem s k v = Throw e <-> setItem_fault s = Some e.
  Proof.
    unfold Storage_setItem. destruct (setItem_fault s); split; congruence.
  Qed.

Lemma getItem_throws_iff (e : Error) :
    Storage_getItem s k = Throw e <-> getItem_fault s = Some e.
  Proof.
    unfold Storage_getItem. destruct (getItem_fault s); split; congruence.
  Qed.
End StorageFacts.

(** ** setUser *)

(** The world [setUser payload] leaves behind when the write succeeds. *)
Lemma setUser_fulfilled (w : World) (payload : loc) (s' : Storage) :
  Storage_setItem (storage w) (storageOptions_key (this w))
    (JSON_stringify (heap w payload)) = Return s' ->
  setUser payload w =
    (with_storage s'
       (with_trace
          (trace w ++
           [assign_authPayload payload;
            storage_setItem (storageOptions_key (this w))
              (JSON_stringify (heap w payload));
            emitter_emit SETUSER (PayloadData payload);
            console_log "The user payload has been successfully updated."])
          (with_this (put_authPayload (Some payload)) w)),
     Fulfilled tt).
Proof.
  intros H. js_run. rewrite H. flatten_trace. reflexivity.
Qed.

Lemma setUser_rejected (w : World) (payload : loc) (e : Error) :
  Storage_setItem (storage w) (storageOptions_key (this w))
    (JSON_stringify (heap w payload)) = Throw e ->
  setUser payload w =
    (with_trace
       (trace w ++
        [assign_authPayload payload;
         storage_setItem (storageOptions_key (this w))
           (JSON_stringify (heap w payload));
         console_error e])
       (with_this (put_authPayload (Some payload)) w),
     Rejected e).
Proof.
  intros H. js_run. rewrite H. flatten_trace. reflexivity.
Qed.

(** [setUser] always settles. *)
Lemma setUser_settles (w : World) (payload : loc) :
  snd (setUser payload w) <> Pending.
Proof.
  destruct (Storage_setItem (storage w) (storageOptions_key (this w))
              (JSON_stringify (heap w payload))) as [s'|e] eqn:H.
  - by rewrite (setUser_fulfilled _ _ _ H).
  - by rewrite (setUser_rejected _ _ _ H).
Qed.

(** C10: when the write of [setUser(p)] throws, the promise is rejected
    with that error, [this.authPayload] already refers to [p] (it was
    assigned before the write was attempted), the payload object and the
    storage are untouched and no [SETUSER] event has been emitted. *)
Theorem C10_setUser_failure_keeps_new_payload
    (w : World) (payload : loc) (e : Error) :
  snd (persistJWTTokenPayload payload (fst (set_authPayload payload w)))
    = Rejected e ->
  let w' := fst (setUser payload w) in
  let key := storageOptions_key (this w) in
  snd (setUser payload w) = Rejected e /\
  authPayload (this w') = Some payload /\
  heap w' payload = heap w payload /\
  storage w' = storage w /\
  trace w' =
    trace w ++ [assign_authPayload payload;
                storage_setItem key (JSON_stringify (heap w payload));
                console_error e] /\
  existsb is_SETUSER (skipn (length (trace w)) (trace w')) = false.
Proof.
  intros Hthrow.
  assert (H : Storage_setItem (storage w) (storageOptions_key (this w))
                (JSON_stringify (heap w payload)) = Throw e).
  { revert Hthrow. js_run.
    destruct (Storage_setItem _ _ _); cbn; congruence. }
  intros w' key. subst w'. rewrite (setUser_rejected _ _ _ H). cbn.
  repeat split; try reflexivity.
  rewrite drop_app_length. reflexivity.
Qed.

Lemma C10_witness :
  let w' := fst (setUser 0%nat writes_fail) in
  snd (setUser 0%nat writes_fail) = Rejected "QuotaExceededError" /\
  authPayload (this w') = Some 0%nat.
Proof.
  pose proof (C10_setUser_failure_keeps_new_payload
                writes_fail 0%nat "QuotaExceededError"
                eq_refl) as H.
  cbv zeta in H. destruct H as (H1 & H2 & _). split; [exact H1 | exact H2].
Defined.

(** ** getUser *)

(** C8: [getUser()] follows the storage, not the memory: when the read at
    the configured key returns [null] the promise resolves to [null]
    whatever [this.user] holds, when it returns a value the promise
    resolves to [this.user]; the read is the only thing [getUser] does, so
    no callback (and hence no network call) is made. *)
Theorem C8_getUser_follows_storage (w : World) (stored : option string) :
  Storage_getItem (storage w) (storageOptions_key (this w)) = Return stored ->
  getUser w =
    (with_trace (trace w ++ [storage_getItem (storageOptions_key (this w))]) w,
     Fulfilled (match stored with
                | None => None
                | Some _ => user (this w)
                end)) /\
  existsb is_network_call
    (skipn (length (trace w)) (trace (fst (getUser w)))) = false.
Proof.
  intros H.
  assert (E : getUser w =
    (with_trace (trace w ++ [storage_getItem (storageOptions_key (this w))]) w,
     Fulfilled (match stored with
                | None => None
                | Some _ => user (this w)
                end))).
  { js_run. rewrite H. cbn. destruct stored; reflexivity. }
  split; [exact E |].
  rewrite E. cbn. rewrite drop_app_length. reflexivity.
Qed.

(** A user is in memory, the store holds nothing under the key. *)
Lemma C8_witness :
  user (this token_cleared) = Some u1 /\
  snd (getUser token_cleared) = Fulfilled None.
Proof.
  split; [reflexivity |].
  pose proof (C8_getUser_follows_storage
                token_cleared None eq_refl) as [H _].
  rewrite H. reflexivity.
Defined.

Lemma getUser_stored_example :
  snd (getUser signed_in) = Fulfilled (Some u1).
Proof. reflexivity. Qed.

(** C2 (what the code does): when the read throws, the [catch] block logs,
    calls [reject(error)] and only then [resolve(null)]; the promise is
    already settled by the rejection, so [getUser()] rejects with the
    storage error. *)
Theorem C2_getUser_read_failure_rejects (w : World) (e : Error) :
  Storage_getItem (storage w) (storageOptions_key (this w)) = Throw e ->
  getUser w =
    (with_trace
       (trace w ++ [storage_getItem (storageOptions_key (this w));
                    console_error e]) w,
     Rejected e).
Proof.
  intros H. js_run. rewrite H. flatten_trace. reflexivity.
Qed.

Lemma C2_witness :
  snd (getUser reads_fail) = Rejected "SecurityError".
Proof.
  rewrite (C2_getUser_read_failure_rejects
             reads_fail "SecurityError" eq_refl).
  reflexivity.
Defined.

(** ** signIn *)

Lemma upd_same {A} (m : nat -> A) (i : nat) (x : A) : upd m i x i = x.
Proof. unfold upd. by rewrite Nat.eqb_refl. Qed.

Lemma upd_other {A} (m : nat -> A) (i j : nat) (x : A) : j <> i -> upd m i x j = m j.
Proof. unfold upd. intros H. by apply Nat.eqb_neq in H as ->. Qed.

(** The world a successful [signIn] leaves behind. *)
Lemma signIn_fulfilled
    (w : World) (u : User) (p : AuthPayload)
    (onSuccess : option (AuthPayload -> Completion unit)) :
  authorize (this w) u = Fulfilled (Some p) ->
  setItem_fault (storage w) = None ->
  onSuccess_returns onSuccess p ->
  signIn u onSuccess w =
    (with_trace
       (trace w ++
        [call_authorize u;
         assign_user (Some u);
         assign_authPayload (next_loc w);
         storage_setItem (storageOptions_key (this w)) (JSON_stringify p);
         emitter_emit SETUSER (PayloadData (next_loc w));
         console_log "The user payload has been successfully updated.";
         emitter_emit SIGNIN (SignInData (next_loc w) u);
         console_log "The user has beed successfully signed in"] ++
        onSuccess_trace onSuccess (next_loc w))
       (with_storage
          (Storage_put (storageOptions_key (this w)) (JSON_stringify p) (storage w))
          (with_this (fun a => put_authPayload (Some (next_loc w)) (put_user (Some u) a))
             (with_heap (upd (heap w) (next_loc w) p) (S (next_loc w)) w))),
     Fulfilled tt).
Proof.
  intros Hauth Hset Hcb.
  unfold signIn, try_catch, bind, get, await, tell, modify, alloc, set_user, ret.
  cbn. rewrite Hauth. cbn.
  erewrite setUser_fulfilled; cycle 1.
  { cbn. unfold Storage_setItem. rewrite Hset. reflexivity. }
  cbn. rewrite upd_same.
  destruct onSuccess as [f|]; cbn in *.
  - unfold lift. rewrite upd_same, Hcb. unfold with_trace; cbn.
    rewrite <- !app_assoc. reflexivity.
  - unfold with_trace; cbn. rewrite <- !app_assoc. reflexivity.
Qed.

(** C5: after a successful [signIn(user)] the promise is fulfilled,
    [this.user] is the input user, the value stored under the configured
    key is [JSON.stringify] of the payload [authorize] resolved to,
    [SIGNIN] was emitted with that payload and that user, and the
    assignment to [this.user] comes before the storage write in the
    trace. *)
Theorem C5_signIn_success
    (w : World) (u : User) (p : AuthPayload)
    (onSuccess : option (AuthPayload -> Completion unit)) :
  authorize (this w) u = Fulfilled (Some p) ->
  setItem_fault (storage w) = None ->
  onSuccess_returns onSuccess p ->
  let w' := fst (signIn u onSuccess w) in
  let key := storageOptions_key (this w) in
  let payload := next_loc w in
  snd (signIn u onSuccess w) = Fulfilled tt /\
  user (this w') = Some u /\
  items (storage w') !! key = Some (JSON_stringify p) /\
  authPayload (this w') = Some payload /\
  heap w' payload = p /\
  trace w' =
    trace w ++
    [call_authorize u;
     assign_user (Some u);
     assign_authPayload payload;
     storage_setItem key (JSON_stringify p);
     emitter_emit SETUSER (PayloadData payload);
     console_log "The user payload has been successfully updated.";
     emitter_emit SIGNIN (SignInData payload u);
     console_log "The user has beed successfully signed in"] ++
    onSuccess_trace onSuccess payload.
Proof.
  intros Hauth Hset Hcb w' key payload. subst w' key payload.
  rewrite (signIn_fulfilled _ _ _ _ Hauth Hset Hcb). cbn.
  rewrite upd_same, lookup_insert_eq. repeat split; reflexivity.
Qed.

Lemma C5_witness :
  user (this signed_in) = Some u1 /\
  items (storage signed_in) !! "token" = Some (JSON_stringify bootstrap_payload).
Proof.
  pose proof (C5_signIn_success (bootstrap empty_store) u1 bootstrap_payload None
                eq_refl eq_refl I) as H.
  cbv zeta in H. destruct H as (_ & H2 & H3 & _).
  split; [exact H2 | exact H3].
Defined.

(** [authorize] resolved to a falsy value: the guard logs and returns,
    nothing else happens. *)
Lemma signIn_falsy (w : World) (u : User)
    (onSuccess : option (AuthPayload -> Completion unit)) :
  authorize (this w) u = Fulfilled None ->
  signIn u onSuccess w =
    (with_trace
       (trace w ++
        [call_authorize u;
         console_error "The authorize callback returns some invalid data"]) w,
     Fulfilled tt).
Proof.
  intros H. js_run. rewrite H. cbn. unfold with_trace; cbn.
  rewrite <- !app_assoc. reflexivity.
Qed.

(** [authorize] rejected: the [catch] block runs. *)
Lemma signIn_rejected (w : World) (u : User) (e : Error)
    (onSuccess : option (AuthPayload -> Completion unit)) :
  authorize (this w) u = Rejected e ->
  signIn u onSuccess w =
    (with_storage (Storage_removeItem (storage w) (storageOptions_key (this w)))
       (with_trace
          (trace w ++
           [call_authorize u; console_error e; assign_user None;
            storage_removeItem (storageOptions_key (this w))])
          (with_this (put_user None) w)),
     Fulfilled tt).
Proof.
  intros H. js_run. rewrite H. cbn. unfold with_trace; cbn.
  rewrite <- !app_assoc. reflexivity.
Qed.

(** [authorize] resolved, the write inside [setUser] threw: the rejection
    of [setUser] lands in the same [catch] block. *)
Lemma signIn_write_failure (w : World) (u : User) (p : AuthPayload) (e : Error)
    (onSuccess : option (AuthPayload -> Completion unit)) :
  authorize (this w) u = Fulfilled (Some p) ->
  setItem_fault (storage w) = Some e ->
  signIn u onSuccess w =
    (with_storage (Storage_removeItem (storage w) (storageOptions_key (this w)))
       (with_trace
          (trace w ++
           [call_authorize u;
            assign_user (Some u);
            assign_authPayload (next_loc w);
            storage_setItem (storageOptions_key (this w)) (JSON_stringify p);
            console_error e;
            console_error e;
            assign_user None;
            storage_removeItem (storageOptions_key (this w))])
          (with_this (fun a => put_user None (put_authPayload (Some (next_loc w)) a))
             (with_heap (upd (heap w) (next_loc w) p) (S (next_loc w)) w))),
     Fulfilled tt).
Proof.
  intros Hauth Hset.
  unfold signIn, try_catch, bind, get, await, tell, modify, alloc, set_user,
    storage_remove, ret.
  cbn. rewrite Hauth. cbn.
  erewrite setUser_rejected; cycle 1.
  { cbn. unfold Storage_setItem. rewrite Hset. reflexivity. }
  cbn. rewrite upd_same. unfold with_trace, with_storage; cbn.
  rewrite <- !app_assoc. reflexivity.
Qed.

(** C3, as stated, fails: with a session in place and [authorize]
    resolving to [null], [signIn] returns from its guard and neither
    clears [this.user] nor removes the stored token. *)
Lemma C3_counterexample :
  ~ (forall (w : World) (u : User),
       (authorize (this w) u = Fulfilled None \/
        exists e, authorize (this w) u = Rejected e) ->
       let w' := fst (signIn u None w) in
       snd (signIn u None w) = Fulfilled tt /\
       user (this w') = None /\
       items (storage w') !! storageOptions_key (this w) = None).
Proof.
  intros H.
  destruct (H authorize_null u0 (or_introl eq_refl)) as (_ & Huser & _).
  vm_compute in Huser. discriminate Huser.
Qed.

(** C3 (amended): [signIn] is fulfilled in both failure cases.  When
    [authorize] rejects, [this.user] is cleared and the token under the
    configured key is removed; when it resolves to a falsy value,
    [this.user], [this.authPayload] and the storage are left as they
    were. *)
Theorem C3_signIn_authorize_failure
    (w : World) (u : User) (onSuccess : option (AuthPayload -> Completion unit))
    (r : Promise (option AuthPayload)) :
  authorize (this w) u = r ->
  let w' := fst (signIn u onSuccess w) in
  match r with
  | Rejected e =>
      snd (signIn u onSuccess w) = Fulfilled tt /\
      user (this w') = None /\
      items (storage w') !! storageOptions_key (this w) = None
  | Fulfilled None =>
      snd (signIn u onSuccess w) = Fulfilled tt /\
      user (this w') = user (this w) /\
      authPayload (this w') = authPayload (this w) /\
      storage w' = storage w
  | _ => True
  end.
Proof.
  intros H w'. subst w'. destruct r as [| [p|] | e]; [exact I | exact I | |].
  - rewrite (signIn_falsy _ _ _ H). cbn. repeat split; reflexivity.
  - rewrite (signIn_rejected _ _ _ _ H). cbn.
    rewrite lookup_delete_eq. repeat split; reflexivity.
Qed.

Lemma C3_witness :
  user (this (fst (signIn u0 None authorize_rejecting))) = None /\
  items (storage (fst (signIn u0 None authorize_rejecting))) !! "token" = None.
Proof.
  pose proof (C3_signIn_authorize_failure authorize_rejecting u0 None
                (Rejected "401") eq_refl) as H.
  cbv zeta in H. destruct H as (_ & H2 & H3).
  split; [exact H2 | exact H3].
Defined.

(** C9, as stated, fails: when the write inside [setUser] throws,
    [signIn] ends in its [catch] block, which clears [this.user]. *)
Lemma C9_counterexample :
  ~ (forall (w : World) (u : User) (p : AuthPayload) (e : Error),
       authorize (this w) u = Fulfilled (Some p) ->
       setItem_fault (storage w) = Some e ->
       let w' := fst (signIn u None w) in
       snd (signIn u None w) = Fulfilled tt /\
       user (this w') = Some u /\
       items (storage w') !! storageOptions_key (this w) = None).
Proof.
  intros H.
  destruct (H (bootstrap full_store) u1 bootstrap_payload "QuotaExceededError"
              eq_refl eq_refl) as (_ & Huser & _).
  vm_compute in Huser. discriminate Huser.
Qed.

(** C9 (amended): when [authorize] succeeds and the write inside [setUser]
    throws, [signIn] is fulfilled all the same; afterwards [this.user] is
    absent and nothing is stored under the configured key, while
    [this.authPayload] refers to the payload [authorize] resolved to. *)
Theorem C9_signIn_write_failure
    (w : World) (u : User) (p : AuthPayload) (e : Error)
    (onSuccess : option (AuthPayload -> Completion unit)) :
  authorize (this w) u = Fulfilled (Some p) ->
  setItem_fault (storage w) = Some e ->
  let w' := fst (signIn u onSuccess w) in
  snd (signIn u onSuccess w) = Fulfilled tt /\
  user (this w') = None /\
  items (storage w') !! storageOptions_key (this w) = None /\
  authPayload (this w') = Some (next_loc w) /\
  heap w' (next_loc w) = p.
Proof.
  intros Hauth Hset w'. subst w'.
  rewrite (signIn_write_failure _ _ _ _ _ Hauth Hset). cbn.
  rewrite lookup_delete_eq, upd_same. repeat split; reflexivity.
Qed.

Lemma C9_witness :
  user (this (fst (signIn u1 None (bootstrap full_store)))) = None /\
  authPayload (this (fst (signIn u1 None (bootstrap full_store)))) = Some 0%nat.
Proof.
  pose proof (C9_signIn_write_failure (bootstrap full_store) u1 bootstrap_payload
                "QuotaExceededError" None eq_refl eq_refl) as H.
  cbv zeta in H. destruct H as (_ & H2 & _ & H4 & _).
  split; [exact H2 | exact H4].
Defined.

(** ** Detaching interceptors *)

Lemma forEach_eject_no_instance (ids : list nat) (w : World) :
  axiosInstance (this w) = None ->
  forEach_eject ids w = (w, Fulfilled tt).
Proof.
  intros H. induction ids as [|id rest IH]; [reflexivity |].
  cbn. unfold bind, get. rewrite H. cbn. exact IH.
Qed.

Lemma forEach_eject_run (ids : list nat) : forall (w : World) (c : client),
  axiosInstance (this w) = Some c ->
  forEach_eject ids w =
    (with_clients (eject_loop c ids (clients w))
       (with_trace (trace w ++ map (interceptors_request_eject c) ids) w),
     Fulfilled tt).
Proof.
  induction ids as [|id rest IH]; intros w c H.
  - destruct w. cbn. unfold with_clients, with_trace. cbn.
    by rewrite app_nil_r.
  - cbn. unfold bind, get, tell, modify. rewrite H. cbn.
    rewrite (IH _ c) by exact H.
    unfold with_clients, with_trace. cbn. by rewrite <- app_assoc.
Qed.

Lemma ejectTriggeredInterceptors_run (w : World) :
  ejectTriggeredInterceptors w = (after_eject w, Fulfilled tt).
Proof.
  unfold ejectTriggeredInterceptors, after_eject, bind, get, modify.
  destruct (axiosInterceptorEjectIds (this w)) as [|id rest] eqn:Hids;
    [reflexivity |].
  destruct (axiosInstance (this w)) as [c|] eqn:Hc.
  - by rewrite (forEach_eject_run _ _ c Hc).
  - by rewrite (forEach_eject_no_instance _ _ Hc).
Qed.

Lemma eject_loop_target (c : client) (ids : list nat) :
  forall cs, eject_loop c ids cs c = eject_all ids (cs c).
Proof.
  induction ids as [|id rest IH]; intros cs; [reflexivity |].
  change (eject_loop c (id :: rest) cs)
    with (eject_loop c rest (upd cs c (request_eject id (cs c)))).
  rewrite IH. by rewrite upd_same.
Qed.

Lemma eject_loop_other (c c' : client) (ids : list nat) :
  c' <> c -> forall cs, eject_loop c ids cs c' = cs c'.
Proof.
  intros Hne. induction ids as [|id rest IH]; intros cs; [reflexivity |].
  change (eject_loop c (id :: rest) cs)
    with (eject_loop c rest (upd cs c (request_eject id (cs c)))).
  rewrite IH. by apply upd_other.
Qed.

(** Ejecting through the request manager never touches the response
    manager. *)
Lemma eject_all_response (ids : list nat) :
  forall c, response_handlers (eject_all ids c) = response_handlers c.
Proof.
  induction ids as [|id rest IH]; intros c; [reflexivity |].
  change (eject_all (id :: rest) c) with (eject_all rest (request_eject id c)).
  by rewrite IH.
Qed.

Section AfterEject.
Variable w : World.

Lemma after_eject_ids : axiosInterceptorEjectIds (this (after_eject w)) = [].
  Proof.
    unfold after_eject.
    destruct (axiosInterceptorEjectIds (this w)) eqn:H; [exact H |].
    by destruct (axiosInstance (this w)).
  Qed.

Lemma after_eject_user : user (this (after_eject w)) = user (this w).
  Proof.
    unfold after_eject.
    destruct (axiosInterceptorEjectIds (this w)); [reflexivity |].
    by destruct (axiosInstance (this w)).
  Qed.

Lemma after_eject_authPayload :
    authPayload (this (after_eject w)) = authPayload (this w).
  Proof.
    unfold after_eject.
    destruct (axiosInterceptorEjectIds (this w)); [reflexivity |].
    by destruct (axiosInstance (this w)).
  Qed.

Lemma after_eject_key :
    storageOptions_key (this (after_eject w)) = storageOptions_key (this w).
  Proof.
    unfold after_eject.
    destruct (axiosInterceptorEjectIds (this w)); [reflexivity |].
    by destruct (axiosInstance (this w)).
  Qed.

Lemma after_eject_signOutCallback :
    signOutCallback (this (after_eject w)) = signOutCallback (this w).
  Proof.
    unfold after_eject.
    destruct (axiosInterceptorEjectIds (this w)); [reflexivity |].
    by destruct (axiosInstance (this w)).
  Qed.

Lemma after_eject_storage : storage (after_eject w) = storage w.
  Proof.
    unfold after_eject.
    destruct (axiosInterceptorEjectIds (this w)); [reflexivity |].
    by destruct (axiosInstance (this w)).
  Qed.

Lemma after_eject_heap : heap (after_eject w) = heap w.
  Proof.
    unfold after_eject.
    destruct (axiosInterceptorEjectIds (this w)); [reflexivity |].
    by destruct (axiosInstance (this w)).
  Qed.

Lemma after_eject_trace :
    trace (after_eject w) =
    trace w ++ eject_trace (axiosInstance (this w)) (axiosInterceptorEjectIds (this w)).
  Proof.
    unfold after_eject, eject_trace.
    destruct (axiosInterceptorEjectIds (this w)).
    - destruct (axiosInstance (this w)); cbn; by rewrite app_nil_r.
    - destruct (axiosInstance (this w)); cbn; [reflexivity | by rewrite app_nil_r].
  Qed.

  (** Whatever was registered with a response manager stays there. *)
Lemma after_eject_response (c : client) :
    response_handlers (clients (after_eject w) c) = response_handlers (clients w c).
  Proof.
    unfold after_eject.
    destruct (axiosInterceptorEjectIds (this w)) as [|id rest]; [reflexivity |].
    destruct (axiosInstance (this w)) as [t|]; [| reflexivity].
    cbn -[eject_loop]. destruct (decide (c = t)) as [->|Hne].
    - rewrite eject_loop_target. apply eject_all_response.
    - by rewrite eject_loop_other.
  Qed.

  (** Clients other than the one in [this.axiosInstance] are not touched. *)
Lemma after_eject_other_client (c : client) :
    axiosInstance (this w) <> Some c ->
    clients (after_eject w) c = clients w c.
  Proof.
    intros Hne. unfold after_eject.
    destruct (axiosInterceptorEjectIds (this w)) as [|id rest]; [reflexivity |].
    destruct (axiosInstance (this w)) as [t|]; [| reflexivity].
    cbn -[eject_loop]. apply eject_loop_other. congruence.
  Qed.
End AfterEject.

Lemma eject_trace_quiet (target : option client) (ids : list nat) :
  existsb is_SIGNOUT (eject_trace target ids) = false /\
  existsb is_signOutCallback (eject_trace target ids) = false.
Proof.
  destruct target as [c|]; [| by split].
  cbn. induction ids as [|id rest [IH1 IH2]]; by split.
Qed.

(** ** Token expiry *)

Lemma tryOverrideTokenExpiration_run (l : loc) (jwtPayload : JWTPayload) (w : World) :
  tryOverrideTokenExpiration l jwtPayload w =
    (after_override l jwtPayload w, Fulfilled tt).
Proof.
  unfold tryOverrideTokenExpiration, after_override, bind, get, modify, ret.
  destruct (truthy_number (expiresIn (heap w l))); [reflexivity |].
  by destruct (truthy_number (exp jwtPayload)).
Qed.

Lemma after_override_expiresIn (l : loc) (jwtPayload : JWTPayload) (w : World) :
  expiresIn (heap (after_override l jwtPayload w) l) =
  expiry_after_override (heap w l) jwtPayload.
Proof.
  unfold after_override, expiry_after_override.
  destruct (truthy_number (expiresIn (heap w l))); [reflexivity |].
  destruct (truthy_number (exp jwtPayload)); [| reflexivity].
  cbn. by rewrite upd_same.
Qed.

(** The override writes to the object it is given and to no other, and
    leaves the tokens of that object alone. *)
Lemma after_override_other (l l' : loc) (jwtPayload : JWTPayload) (w : World) :
  l' <> l -> heap (after_override l jwtPayload w) l' = heap w l'.
Proof.
  intros Hne. unfold after_override.
  destruct (truthy_number (expiresIn (heap w l))); [reflexivity |].
  destruct (truthy_number (exp jwtPayload)); [| reflexivity].
  cbn. by apply upd_other.
Qed.

Lemma after_override_tokens (l : loc) (jwtPayload : JWTPayload) (w : World) :
  accessToken (heap (after_override l jwtPayload w) l) = accessToken (heap w l) /\
  refreshToken (heap (after_override l jwtPayload w) l) = refreshToken (heap w l).
Proof.
  unfold after_override.
  destruct (truthy_number (expiresIn (heap w l))); [by split |].
  destruct (truthy_number (exp jwtPayload)); [| by split].
  cbn. by rewrite upd_same.
Qed.

Lemma after_override_truthy (l : loc) (jwtPayload : JWTPayload) (w : World) :
  truthy_number (expiresIn (heap w l)) = true ->
  after_override l jwtPayload w = w.
Proof. unfold after_override. by intros ->. Qed.

Lemma after_override_frame (l : loc) (jwtPayload : JWTPayload) (w : World) :
  this (after_override l jwtPayload w) = this w /\
  storage (after_override l jwtPayload w) = storage w /\
  next_loc (after_override l jwtPayload w) = next_loc w /\
  clients (after_override l jwtPayload w) = clients w /\
  trace (after_override l jwtPayload w) = trace w.
Proof.
  unfold after_override.
  destruct (truthy_number (expiresIn (heap w l))); [done |].
  by destruct (truthy_number (exp jwtPayload)).
Qed.

Lemma teardown_run (e : Error) (w : World) :
  (tell (console_error e) ;;
   ejectTriggeredInterceptors ;;
   storage_remove ;;
   set_user None)%js w = (torn_down e w, Fulfilled tt).
Proof.
  unfold bind at 1. unfold tell at 1. unfold modify at 1.
  unfold bind at 1. rewrite ejectTriggeredInterceptors_run.
  unfold torn_down.
  generalize (after_eject (with_trace (trace w ++ [console_error e]) w)).
  intros w1. js_run. unfold with_trace, with_storage; cbn.
  rewrite <- !app_assoc. reflexivity.
Qed.

Section TornDown.
Variables (e : Error) (w : World).

Lemma torn_down_user : user (this (torn_down e w)) = None.
  Proof. reflexivity. Qed.

Lemma torn_down_ids : axiosInterceptorEjectIds (this (torn_down e w)) = [].
  Proof. unfold torn_down. cbn. apply after_eject_ids. Qed.

Lemma torn_down_authPayload :
    authPayload (this (torn_down e w)) = authPayload (this w).
  Proof. unfold torn_down. cbn. by rewrite after_eject_authPayload. Qed.

Lemma torn_down_key :
    storageOptions_key (this (torn_down e w)) = storageOptions_key (this w).
  Proof. unfold torn_down. cbn. by rewrite after_eject_key. Qed.

Lemma torn_down_removed :
    items (storage (torn_down e w)) !! storageOptions_key (this w) = None.
  Proof.
    unfold torn_down. cbn. rewrite after_eject_key. cbn. apply lookup_delete_eq.
  Qed.

Lemma torn_down_heap : heap (torn_down e w) = heap w.
  Proof. unfold torn_down. cbn. by rewrite after_eject_heap. Qed.

Lemma torn_down_trace :
    trace (torn_down e w) =
    trace w ++ [console_error e]
      ++ eject_trace (axiosInstance (this w)) (axiosInterceptorEjectIds (this w))
      ++ [storage_removeItem (storageOptions_key (this w)); assign_user None].
  Proof.
    unfold torn_down. cbn. rewrite after_eject_trace, after_eject_key. cbn.
    by rewrite <- !app_assoc.
  Qed.

Lemma torn_down_response (c : client) :
    response_handlers (clients (torn_down e w) c) = response_handlers (clients w c).
  Proof. unfold torn_down. cbn. by rewrite after_eject_response. Qed.
End TornDown.

Section Expiry.
Variable decodeJwt : string -> Completion (option JWTPayload).
Variable now : number.
Variable handleRefreshToken : string -> Promise AuthPayload.
Variable w : World.

Local Abbreviation check :=
    (checkAccessTokenIsExpired decodeJwt now handleRefreshToken).

Lemma check_no_payload :
    authPayload (this w) = None -> check w = (w, Fulfilled tt).
  Proof.
    intros H. unfold checkAccessTokenIsExpired, bind, get. by rewrite H.
  Qed.

Lemma check_no_token (l : loc) :
    authPayload (this w) = Some l ->
    truthy_string (accessToken (heap w l)) = false ->
    check w = (w, Fulfilled tt).
  Proof.
    intros H1 H2. unfold checkAccessTokenIsExpired, bind, get.
    by rewrite H1, H2.
  Qed.

  (** The guard of line 154: a decoder that answers [null]. *)
Lemma check_decoder_null (l : loc) :
    authPayload (this w) = Some l ->
    truthy_string (accessToken (heap w l)) = true ->
    decodeJwt (accessToken (heap w l)) = Return None ->
    check w = (w, Fulfilled tt).
  Proof.
    intros H1 H2 H3. unfold checkAccessTokenIsExpired, bind, get.
    by rewrite H1, H2, H3.
  Qed.

Lemma check_decoder_throws (l : loc) (e : Error) :
    authPayload (this w) = Some l ->
    truthy_string (accessToken (heap w l)) = true ->
    decodeJwt (accessToken (heap w l)) = Throw e ->
    check w = (w, Rejected e).
  Proof.
    intros H1 H2 H3. unfold checkAccessTokenIsExpired, bind, get.
    by rewrite H1, H2, H3.
  Qed.

Section Decoded.
Variables (l : loc) (jwtPayload : JWTPayload).
Hypothesis Hl : authPayload (this w) = Some l.
Hypothesis Htoken : truthy_string (accessToken (heap w l)) = true.
Hypothesis Hdecoded : decodeJwt (accessToken (heap w l)) = Return (Some jwtPayload).

Let w1 := after_override l jwtPayload w.
Let token := refreshToken (heap w l).
Let w2 := with_trace (trace w1 ++ [call_handleRefreshToken token]) w1.

Lemma check_decoded :
      check w =
        if expired now (expiry_after_override (heap w l) jwtPayload) then
          try_catch
            (newPayload <- await (handleRefreshToken token) ;;
             l' <- alloc newPayload ;;
             setUser l')
            (fun error =>
               tell (console_error error) ;;
               ejectTriggeredInterceptors ;;
               storage_remove ;;
               set_user None) w2
        else (w1, Fulfilled tt).
    Proof.
      unfold checkAccessTokenIsExpired. unfold bind at 1. unfold get at 1.
      rewrite Hl, Htoken. cbn [negb]. unfold bind at 1.
      rewrite Hdecoded. cbn [lift ret]. unfold bind at 1.
      rewrite tryOverrideTokenExpiration_run. unfold bind at 1. unfold get at 1.
      fold w1. rewrite <- after_override_expiresIn. fold w1.
      destruct (after_override_tokens l jwtPayload w) as [_ Hrt]. fold w1 in Hrt.
      unfold expired. rewrite Hrt. fold token.
      destruct (truthy_number (expiresIn (heap w1 l)) && _); [| reflexivity].
      unfold try_catch, bind, tell, modify. reflexivity.
    Qed.

Lemma check_not_expired :
      expired now (expiry_after_override (heap w l) jwtPayload) = false ->
      check w = (w1, Fulfilled tt).
    Proof. intros H. by rewrite check_decoded, H. Qed.

Lemma check_refresh_pending :
      expired now (expiry_after_override (heap w l) jwtPayload) = true ->
      handleRefreshToken token = Pending ->
      check w = (w2, Pending).
    Proof.
      intros H1 H2. rewrite check_decoded, H1.
      unfold try_catch, bind, await. by rewrite H2.
    Qed.

Lemma check_refresh_rejected (e : Error) :
      expired now (expiry_after_override (heap w l) jwtPayload) = true ->
      handleRefreshToken token = Rejected e ->
      check w = (torn_down e w2, Fulfilled tt).
    Proof.
      intros H1 H2. rewrite check_decoded, H1.
      unfold try_catch. unfold bind at 1. unfold await. rewrite H2.
      apply teardown_run.
    Qed.

    (** The world once the refreshed payload has its address. *)
Let w3 (p : AuthPayload) :=
      with_heap (upd (heap w2) (next_loc w2) p) (S (next_loc w2)) w2.

Lemma check_refresh_stored (p : AuthPayload) :
      expired now (expiry_after_override (heap w l) jwtPayload) = true ->
      handleRefreshToken token = Fulfilled p ->
      setItem_fault (storage w) = None ->
      check w = setUser (next_loc w) (w3 p) /\
      snd (setUser (next_loc w) (w3 p)) = Fulfilled tt.
    Proof.
      intros H1 H2 H3. rewrite check_decoded, H1.
      destruct (after_override_frame l jwtPayload w) as (Hthis & Hsto & Hnext & _).
      fold w1 in Hthis, Hsto, Hnext.
      assert (Hn : next_loc w2 = next_loc w) by exact Hnext.
      assert (E : Storage_setItem (storage (w3 p)) (storageOptions_key (this (w3 p)))
                    (JSON_stringify (heap (w3 p) (next_loc w))) =
                  Return (Storage_put (storageOptions_key (this (w3 p)))
                            (JSON_stringify (heap (w3 p) (next_loc w)))
                            (storage (w3 p)))).
      { unfold Storage_setItem. cbn. by rewrite Hsto, H3. }
      unfold try_catch. unfold bind at 1. unfold await. rewrite H2.
      unfold bind at 1. unfold alloc. fold (w3 p). rewrite Hn.
      rewrite (setUser_fulfilled _ _ _ E). by split.
    Qed.

Lemma check_refresh_write_fails (p : AuthPayload) (e : Error) :
      expired now (expiry_after_override (heap w l) jwtPayload) = true ->
      handleRefreshToken token = Fulfilled p ->
      setItem_fault (storage w) = Some e ->
      check w = (torn_down e (fst (setUser (next_loc w) (w3 p))), Fulfilled tt) /\
      snd (setUser (next_loc w) (w3 p)) = Rejected e.
    Proof.
      intros H1 H2 H3. rewrite check_decoded, H1.
      destruct (after_override_frame l jwtPayload w) as (Hthis & Hsto & Hnext & _).
      fold w1 in Hthis, Hsto, Hnext.
      assert (Hn : next_loc w2 = next_loc w) by exact Hnext.
      assert (E : Storage_setItem (storage (w3 p)) (storageOptions_key (this (w3 p)))
                    (JSON_stringify (heap (w3 p) (next_loc w))) = Throw e).
      { unfold Storage_setItem. cbn. by rewrite Hsto, H3. }
      unfold try_catch. unfold bind at 1. unfold await. rewrite H2.
      unfold bind at 1. unfold alloc. fold (w3 p). rewrite Hn.
      rewrite (setUser_rejected _ _ _ E). cbn [fst snd].
      split; [| reflexivity]. apply teardown_run.
    Qed.
End Decoded.
End Expiry.

Lemma setUser_heap (payload : loc) (w : World) :
  heap (fst (setUser payload w)) = heap w.
Proof.
  destruct (Storage_setItem (storage w) (storageOptions_key (this w))
              (JSON_stringify (heap w payload))) as [s'|e] eqn:H.
  - by rewrite (setUser_fulfilled _ _ _ H).
  - by rewrite (setUser_rejected _ _ _ H).
Qed.

Lemma jose_decodeJwt_never_null (decode_claims : string -> Completion JWTPayload)
    (jwt : string) :
  jose_decodeJwt decode_claims jwt <> Return None.
Proof.
  unfold jose_decodeJwt.
  destruct (split_dot jwt) as [|a [|b [|c [|d [|e [|f r]]]]]]; try discriminate.
  destruct (truthy_string b); [| discriminate].
  destruct (decode_claims b); discriminate.
Qed.

(** C1 (what the code does): the decoder throws on a token it cannot
    decode; [checkAccessTokenIsExpired] does not catch that, so the promise
    it returns is rejected with the decoder's error.  The world is left
    exactly as it was: no callback is called, [this.user],
    [this.authPayload] and the storage are unchanged. *)
Theorem C1_malformed_token_rejects
    (decodeJwt : string -> Completion (option JWTPayload)) (now : number)
    (handleRefreshToken : string -> Promise AuthPayload)
    (w : World) (l : loc) (e : Error) :
  authPayload (this w) = Some l ->
  truthy_string (accessToken (heap w l)) = true ->
  decodeJwt (accessToken (heap w l)) = Throw e ->
  checkAccessTokenIsExpired decodeJwt now handleRefreshToken w = (w, Rejected e).
Proof.
  intros Hl Htoken Hthrow.
  unfold checkAccessTokenIsExpired.
  unfold bind at 1. unfold get. rewrite Hl, Htoken. cbn [negb].
  unfold bind. rewrite Hthrow. reflexivity.
Qed.

(** The session of the repository's bootstrap, whose access token is the
    string [access token]. *)
Lemma C1_witness :
  checkAccessTokenIsExpired jose_strict 0 refresh_rejects signed_in =
    (signed_in, Rejected "Invalid JWT").
Proof.
  apply (C1_malformed_token_rejects jose_strict 0 refresh_rejects signed_in 0%nat
           "Invalid JWT"); reflexivity.
Defined.

(** With a decoder that signals failure by [null], the guard of the method
    makes the call a no-op. *)
Lemma malformed_token_null_decoder
    (decodeJwt : string -> Completion (option JWTPayload)) (now : number)
    (handleRefreshToken : string -> Promise AuthPayload)
    (w : World) (l : loc) :
  authPayload (this w) = Some l ->
  decodeJwt (accessToken (heap w l)) = Return None ->
  checkAccessTokenIsExpired decodeJwt now handleRefreshToken w = (w, Fulfilled tt).
Proof.
  intros Hl Hdec.
  destruct (truthy_string (accessToken (heap w l))) eqn:Htok.
  - by apply (check_decoder_null _ _ _ _ l).
  - by apply (check_no_token _ _ _ _ l).
Qed.

(** No call of [checkAccessTokenIsExpired] changes a payload object whose
    [expiresIn] is truthy. *)
Lemma check_keeps_truthy_expiry
    (decodeJwt : string -> Completion (option JWTPayload)) (now : number)
    (handleRefreshToken : string -> Promise AuthPayload)
    (w : World) (l : loc) :
  (l < next_loc w)%nat ->
  truthy_number (expiresIn (heap w l)) = true ->
  heap (fst (checkAccessTokenIsExpired decodeJwt now handleRefreshToken w)) l
  = heap w l.
Proof.
  intros Hlt Htruthy.
  destruct (authPayload (this w)) as [l0|] eqn:Hl;
    [| by rewrite check_no_payload].
  destruct (truthy_string (accessToken (heap w l0))) eqn:Htok;
    [| by rewrite (check_no_token _ _ _ _ l0)].
  destruct (decodeJwt (accessToken (heap w l0))) as [[jwt|]|e] eqn:Hdec;
    [| by rewrite (check_decoder_null _ _ _ _ l0)
     | by rewrite (check_decoder_throws _ _ _ _ l0 e)].
  assert (H1 : heap (after_override l0 jwt w) l = heap w l).
  { destruct (decide (l = l0)) as [->|Hne].
    - by rewrite after_override_truthy.
    - by apply after_override_other. }
  destruct (after_override_frame l0 jwt w) as (_ & Hsto & Hnext & _).
  destruct (expired now (expiry_after_override (heap w l0) jwt)) eqn:Hexp;
    [| by rewrite (check_not_expired _ _ _ _ l0 jwt)].
  destruct (handleRefreshToken (refreshToken (heap w l0))) as [|p|e] eqn:Href.
  - by rewrite (check_refresh_pending _ _ _ _ l0 jwt).
  - assert (H3 : upd (heap (after_override l0 jwt w))
                   (next_loc (after_override l0 jwt w)) p l = heap w l).
    { rewrite upd_other; [exact H1 | rewrite Hnext; lia]. }
    destruct (setItem_fault (storage w)) as [e|] eqn:Hset.
    + destruct (check_refresh_write_fails _ _ _ _ l0 jwt Hl Htok Hdec p e Hexp Href Hset)
        as [-> _].
      cbn [fst]. rewrite torn_down_heap, setUser_heap. exact H3.
    + destruct (check_refresh_stored _ _ _ _ l0 jwt Hl Htok Hdec p Hexp Href Hset)
        as [-> _].
      rewrite setUser_heap. exact H3.
  - rewrite (check_refresh_rejected _ _ _ _ l0 jwt Hl Htok Hdec e Hexp Href).
    cbn [fst]. rewrite torn_down_heap. exact H1.
Qed.

(** The only value [checkAccessTokenIsExpired] ever writes into an
    [expiresIn] field is a truthy [exp] claim. *)
Lemma derived_expiry_is_truthy (l : loc) (jwtPayload : JWTPayload) (w : World) :
  expiresIn (heap (after_override l jwtPayload w) l) <> expiresIn (heap w l) ->
  truthy_number (expiresIn (heap (after_override l jwtPayload w) l)) = true.
Proof.
  rewrite after_override_expiresIn. unfold expiry_after_override.
  destruct (truthy_number (expiresIn (heap w l))); [congruence |].
  destruct (truthy_number (exp jwtPayload)) eqn:H; congruence.
Qed.

(** C7, as stated, fails: a payload supplied with [expiresIn: 0] has its
    [expiresIn] replaced by the token's [exp] claim. *)
Lemma C7_counterexample :
  ~ (forall (decodeJwt : string -> Completion (option JWTPayload)) (now : number)
            (handleRefreshToken : string -> Promise AuthPayload)
            (w : World) (l : loc),
       (l < next_loc w)%nat ->
       is_Some (expiresIn (heap w l)) ->
       expiresIn
         (heap (fst (checkAccessTokenIsExpired decodeJwt now handleRefreshToken w)) l)
       = expiresIn (heap w l)).
Proof.
  intros H.
  assert (Hlt : (0 < next_loc zero_expiry_session)%nat) by (vm_compute; lia).
  assert (Hset : is_Some (expiresIn (heap zero_expiry_session 0%nat)))
    by (eexists; reflexivity).
  specialize (H decode_exp 5 refresh_rejects zero_expiry_session 0%nat Hlt Hset).
  vm_compute in H. discriminate H.
Qed.

(** C7 (amended): for every payload object whose [expiresIn] holds a
    truthy (non-zero) value, no call of [checkAccessTokenIsExpired] changes
    that value. *)
Theorem C7_truthy_expiresIn_is_kept
    (decodeJwt : string -> Completion (option JWTPayload)) (now : number)
    (handleRefreshToken : string -> Promise AuthPayload)
    (w : World) (l : loc) :
  (l < next_loc w)%nat ->
  truthy_number (expiresIn (heap w l)) = true ->
  expiresIn
    (heap (fst (checkAccessTokenIsExpired decodeJwt now handleRefreshToken w)) l)
  = expiresIn (heap w l).
Proof.
  intros Hlt Htruthy. by rewrite check_keeps_truthy_expiry.
Qed.

Lemma C7_witness :
  expiresIn (heap derived_session 0%nat) = Some 1700000000 /\
  expiresIn
    (heap (fst (checkAccessTokenIsExpired decode_exp_42 5 refresh_rejects
                  derived_session)) 0%nat)
  = Some 1700000000.
Proof.
  split; [reflexivity |].
  rewrite (C7_truthy_expiresIn_is_kept decode_exp_42 5 refresh_rejects
             derived_session 0%nat);
    [reflexivity | apply Nat.lt_0_succ | reflexivity].
Defined.

(** ** Forced teardown and explicit sign-out *)

Lemma signOut_run (w : World) : signOut w = (signed_out w, signOut_outcome w).
Proof.
  unfold signOut, signed_out, signOut_outcome, signOutCallback_trace.
  unfold storage_remove, set_user.
  unfold bind at 1. unfold bind at 1. unfold get at 1. unfold bind at 1.
  unfold tell at 1. unfold modify at 1. unfold modify at 1.
  unfold bind at 1. unfold bind at 1. unfold tell at 1. unfold modify at 1.
  unfold modify at 1.
  unfold bind at 1. rewrite ejectTriggeredInterceptors_run.
  match goal with
  | |- _ (after_eject ?a) = (with_trace _ (after_eject ?b), _) =>
      replace a with b
        by (unfold with_this, with_trace, with_storage; cbn;
            by rewrite <- app_assoc);
      pose proof (after_eject_signOutCallback b) as E;
      change (signOutCallback (this b)) with (signOutCallback (this w)) in E;
      generalize dependent (after_eject b)
  end.
  intros w1 E. js_run. rewrite E.
  destruct (signOutCallback (this w)) as [cb|]; unfold with_trace; cbn;
    rewrite <- ?app_assoc; reflexivity.
Qed.

Section SignedOut.
Variable w : World.

Lemma signed_out_user : user (this (signed_out w)) = None.
  Proof. unfold signed_out. cbn. by rewrite after_eject_user. Qed.

Lemma signed_out_ids : axiosInterceptorEjectIds (this (signed_out w)) = [].
  Proof. unfold signed_out. cbn. apply after_eject_ids. Qed.

Lemma signed_out_removed :
    items (storage (signed_out w)) !! storageOptions_key (this w) = None.
  Proof.
    unfold signed_out. cbn. rewrite after_eject_storage. cbn.
    apply lookup_delete_eq.
  Qed.

Lemma signed_out_trace :
    trace (signed_out w) =
    trace w
      ++ [storage_removeItem (storageOptions_key (this w)); assign_user None]
      ++ eject_trace (axiosInstance (this w)) (axiosInterceptorEjectIds (this w))
      ++ [emitter_emit SIGNOUT NoData]
      ++ signOutCallback_trace w.
  Proof.
    unfold signed_out. cbn. rewrite after_eject_trace. cbn.
    by rewrite <- !app_assoc.
  Qed.

Lemma signed_out_response (c : client) :
    response_handlers (clients (signed_out w) c) = response_handlers (clients w c).
  Proof. unfold signed_out. cbn. by rewrite after_eject_response. Qed.
End SignedOut.

(** [signOut] emits [SIGNOUT], and calls the sign-out callback when one
    was configured. *)
Lemma signOut_emits_and_calls (w : World) :
  existsb is_SIGNOUT (skipn (length (trace w)) (trace (fst (signOut w)))) = true /\
  (is_Some (signOutCallback (this w)) ->
   existsb is_signOutCallback
     (skipn (length (trace w)) (trace (fst (signOut w)))) = true).
Proof.
  rewrite signOut_run. cbn [fst]. rewrite signed_out_trace, drop_app_length.
  rewrite !existsb_app. split.
  - cbn. by rewrite orb_true_r.
  - intros [cb Hcb]. unfold signOutCallback_trace. rewrite Hcb. cbn.
    by rewrite !orb_true_r.
Qed.

(** The forced teardown: token expired, the refresh function rejected. *)
Lemma forced_teardown
    (decodeJwt : string -> Completion (option JWTPayload)) (now : number)
    (handleRefreshToken : string -> Promise AuthPayload)
    (w : World) (l : loc) (jwtPayload : JWTPayload) (e : Error) :
  authPayload (this w) = Some l ->
  truthy_string (accessToken (heap w l)) = true ->
  decodeJwt (accessToken (heap w l)) = Return (Some jwtPayload) ->
  expired now (expiry_after_override (heap w l) jwtPayload) = true ->
  handleRefreshToken (refreshToken (heap w l)) = Rejected e ->
  let r := checkAccessTokenIsExpired decodeJwt now handleRefreshToken w in
  let added := skipn (length (trace w)) (trace (fst r)) in
  snd r = Fulfilled tt /\
  user (this (fst r)) = None /\
  items (storage (fst r)) !! storageOptions_key (this w) = None /\
  axiosInterceptorEjectIds (this (fst r)) = [] /\
  added =
    [call_handleRefreshToken (refreshToken (heap w l)); console_error e]
      ++ eject_trace (axiosInstance (this w)) (axiosInterceptorEjectIds (this w))
      ++ [storage_removeItem (storageOptions_key (this w)); assign_user None] /\
  existsb is_SIGNOUT added = false /\
  existsb is_signOutCallback added = false /\
  (forall c, response_handlers (clients (fst r) c) = response_handlers (clients w c)).
Proof.
  intros Hl Htok Hdec Hexp Href r added. subst added r.
  rewrite (check_refresh_rejected _ _ _ _ l jwtPayload Hl Htok Hdec e Hexp Href).
  cbn [fst snd].
  destruct (after_override_frame l jwtPayload w) as (Hthis & Hsto & Hnext & Hcl & Htr).
  set (w2 := with_trace _ (after_override l jwtPayload w)).
  assert (Hthis2 : this w2 = this w) by exact Hthis.
  assert (Htr2 : trace w2 =
                 trace w ++ [call_handleRefreshToken (refreshToken (heap w l))]).
  { unfold w2. cbn. by rewrite Htr. }
  assert (Hcl2 : clients w2 = clients w) by exact Hcl.
  destruct (eject_trace_quiet (axiosInstance (this w))
              (axiosInterceptorEjectIds (this w))) as [Q1 Q2].
  rewrite torn_down_user, torn_down_ids, torn_down_trace, Hthis2, Htr2.
  rewrite <- !app_assoc, drop_app_length.
  split; [reflexivity |]. split; [reflexivity |].
  split; [rewrite <- Hthis2; apply torn_down_removed |].
  split; [reflexivity |]. split; [reflexivity |].
  split; [| split].
  - cbn [app existsb is_SIGNOUT orb]. by rewrite existsb_app, Q1.
  - cbn [app existsb is_signOutCallback orb]. by rewrite existsb_app, Q2.
  - intros c. by rewrite torn_down_response, Hcl2.
Qed.

(** ** The middleware *)

(** [applyAxiosMiddleware(instance)] registers one handler with the
    response manager and one with the request manager of [instance], and
    records the two ids, without saying which manager or which client each
    came from. *)
Lemma applyAxiosMiddleware_run (c : client) (w : World) :
  let w' := fst (applyAxiosMiddleware c w) in
  axiosInstance (this w') = Some c /\
  response_handlers (clients w' c) =
    response_handlers (clients w c) ++ [Some AuthRefreshInterceptor] /\
  request_handlers (clients w' c) =
    request_handlers (clients w c) ++ [Some AuthorizationInterceptor] /\
  axiosInterceptorEjectIds (this w') =
    axiosInterceptorEjectIds (this w)
      ++ [length (response_handlers (clients w c));
          length (request_handlers (clients w c))].
Proof.
  unfold applyAxiosMiddleware, bind, get, modify. cbn.
  rewrite !upd_same. cbn. rewrite <- app_assoc. by repeat split.
Qed.

(** X24: after [applyAxiosMiddleware(c)] and [signOut()], the refresh
    interceptor that [applyAxiosMiddleware] installed is still attached to
    [c]: the ids are ejected through the request manager only. *)
Lemma signOut_keeps_refresh_interceptor (c : client) (w : World) :
  attached (clients (fst (signOut (fst (applyAxiosMiddleware c w)))) c) = true.
Proof.
  rewrite signOut_run. cbn [fst]. unfold attached.
  rewrite signed_out_response.
  destruct (applyAxiosMiddleware_run c w) as (_ & -> & _).
  rewrite existsb_app. cbn. by rewrite !orb_true_r.
Qed.

(** C6 (what the code does): take any session with the middleware applied
    to a client [c], an expired token and a refresh function that rejects.
    The forced teardown is fulfilled, removes the stored token, clears the
    user, empties the registry of ids, emits no [SIGNOUT] and does not call
    the sign-out callback; but the refresh interceptor that
    [applyAxiosMiddleware] registered is still attached to [c]. *)
Theorem C6_forced_teardown_keeps_refresh_interceptor
    (decodeJwt : string -> Completion (option JWTPayload)) (now : number)
    (handleRefreshToken : string -> Promise AuthPayload)
    (w : World) (c : client) (l : loc) (jwtPayload : JWTPayload) (e : Error) :
  let w0 := fst (applyAxiosMiddleware c w) in
  authPayload (this w0) = Some l ->
  truthy_string (accessToken (heap w0 l)) = true ->
  decodeJwt (accessToken (heap w0 l)) = Return (Some jwtPayload) ->
  expired now (expiry_after_override (heap w0 l) jwtPayload) = true ->
  handleRefreshToken (refreshToken (heap w0 l)) = Rejected e ->
  let r := checkAccessTokenIsExpired decodeJwt now handleRefreshToken w0 in
  let added := skipn (length (trace w0)) (trace (fst r)) in
  snd r = Fulfilled tt /\
  user (this (fst r)) = None /\
  items (storage (fst r)) !! storageOptions_key (this w0) = None /\
  axiosInterceptorEjectIds (this (fst r)) = [] /\
  existsb is_SIGNOUT added = false /\
  existsb is_signOutCallback added = false /\
  attached (clients (fst r) c) = true.
Proof.
  intros w0 Hl Htoken Hdecoded Hexpired Hrejected r added.
  destruct (forced_teardown decodeJwt now handleRefreshToken w0 l jwtPayload e
              Hl Htoken Hdecoded Hexpired Hrejected)
    as (H1 & H2 & H3 & H4 & _ & H6 & H7 & H8).
  repeat (split; [assumption |]).
  unfold attached. subst r. rewrite H8. subst w0.
  destruct (applyAxiosMiddleware_run c w) as (_ & -> & _).
  rewrite existsb_app. cbn. by rewrite !orb_true_r.
Qed.

(** The bootstrap session with the middleware on client [0]: both recorded
    ids are [0], both are ejected from the request manager, and the
    response manager still holds the refresh interceptor. *)
Lemma C6_witness :
  let r := checkAccessTokenIsExpired decode_exp late refresh_rejects one_client in
  axiosInterceptorEjectIds (this one_client) = [0%nat; 0%nat] /\
  axiosInterceptorEjectIds (this (fst r)) = [] /\
  response_handlers (clients (fst r) 0%nat) = [Some AuthRefreshInterceptor] /\
  attached (clients (fst r) 0%nat) = true.
Proof.
  pose proof (C6_forced_teardown_keeps_refresh_interceptor
                decode_exp late refresh_rejects signed_in 0%nat 0%nat
                (mkJWTPayload (Some 1700000000) None) "401"
                eq_refl eq_refl eq_refl eq_refl eq_refl) as H.
  cbv zeta in H. destruct H as (_ & _ & _ & H4 & _ & _ & H7).
  cbv zeta. split; [reflexivity |]. split; [exact H4 |].
  split; [reflexivity | exact H7].
Defined.

(** With the middleware applied to two clients, the teardown only reaches
    the second: the first keeps both of its interceptors. *)
Lemma forced_teardown_two_clients :
  let r := checkAccessTokenIsExpired decode_exp late refresh_rejects two_clients in
  snd r = Fulfilled tt /\
  axiosInterceptorEjectIds (this (fst r)) = [] /\
  request_handlers (clients (fst r) 0%nat) = [Some AuthorizationInterceptor] /\
  response_handlers (clients (fst r) 0%nat) = [Some AuthRefreshInterceptor] /\
  request_handlers (clients (fst r) 1%nat) = [None] /\
  response_handlers (clients (fst r) 1%nat) = [Some AuthRefreshInterceptor].
Proof. vm_compute. repeat split; reflexivity. Qed.

(** ** The storage key *)

Lemma constructor_default_key (localStorage : Storage)
    (authz : User -> Promise (option AuthPayload))
    (cb : option (unit -> Promise unit)) :
  storageOptions_key (this (constructor localStorage
                              (mkAuthConfigOptions authz cb None None))) = "token".
Proof. reflexivity. Qed.

(** With [storageOptions] present, a non-empty scope prefixes the key. *)
Lemma constructor_scoped_key (localStorage : Storage)
    (authz : User -> Promise (option AuthPayload))
    (cb : option (unit -> Promise unit))
    (so : AuthStorageOptions) (scope : string) :
  truthy_string scope = true ->
  storageOptions_key (this (constructor localStorage
                              (mkAuthConfigOptions authz cb (Some so) (Some scope))))
  = scope +:+ ":" +:+ or_string (opt_key so) "token".
Proof. intros H. cbn. by rewrite H. Qed.

Lemma scoped_with_storageOptions_example :
  storageOptions_key (this (constructor empty_store scoped_options_with_storage))
  = "app:token".
Proof. reflexivity. Qed.

(** C4 (what the code does): the constructor looks at [scope] only inside
    [if (storageOptions)]; constructed with a scope and no
    [storageOptions], the manager keeps the key [token], and a sign-in
    writes under [token], not under [app:token]. *)
Theorem C4_scope_ignored_without_storageOptions :
  (forall (localStorage : Storage) (authz : User -> Promise (option AuthPayload))
          (cb : option (unit -> Promise unit)) (scope : option string),
     storageOptions_key
       (this (constructor localStorage (mkAuthConfigOptions authz cb None scope)))
     = "token") /\
  let w := fst (signIn u1 None (constructor empty_store scoped_options)) in
  items (storage w) !! "token" = Some (JSON_stringify bootstrap_payload) /\
  items (storage w) !! "app:token" = None /\
  trace w =
    [call_authorize u1;
     assign_user (Some u1);
     assign_authPayload 0%nat;
     storage_setItem "token" (JSON_stringify bootstrap_payload);
     emitter_emit SETUSER (PayloadData 0%nat);
     console_log "The user payload has been successfully updated.";
     emitter_emit SIGNIN (SignInData 0%nat u1);
     console_log "The user has beed successfully signed in"].
Proof. split; [reflexivity |]. vm_compute. repeat split; reflexivity. Qed.

(** ** Every storage call is made with the configured key *)

Section Keyed.
Variable k0 : string.

Lemma keyed_ret {A} (a : A) : keyed k0 (ret a).
Proof. intros w Hk. split; [exact Hk |]. exists []. by rewrite app_nil_r. Qed.

Lemma keyed_throw {A} (e : Error) : keyed k0 (@throw A e).
Proof. intros w Hk. split; [exact Hk |]. exists []. by rewrite app_nil_r. Qed.

Lemma keyed_await {A} (p : Promise A) : keyed k0 (await p).
Proof. intros w Hk. split; [exact Hk |]. exists []. by rewrite app_nil_r. Qed.

Lemma keyed_lift {A} (c : Completion A) : keyed k0 (lift c).
Proof. destruct c; [apply keyed_ret | apply keyed_throw]. Qed.

Lemma keyed_tell (e : Effect) : uses_key k0 e -> keyed k0 (tell e).
Proof.
  intros He w Hk. split; [exact Hk |]. exists [e]. split; [reflexivity |].
  by apply Forall_singleton.
Qed.

Lemma keyed_modify (f : World -> World) :
  (forall w, storageOptions_key (this (f w)) = storageOptions_key (this w) /\
             trace (f w) = trace w) ->
  keyed k0 (modify f).
Proof.
  intros Hf w Hk. destruct (Hf w) as [H1 H2]. cbn. split; [congruence |].
  exists []. by rewrite app_nil_r.
Qed.

Lemma keyed_alloc (p : AuthPayload) : keyed k0 (alloc p).
Proof. intros w Hk. split; [exact Hk |]. exists []. cbn. by rewrite app_nil_r. Qed.

Lemma keyed_bind {A B} (m : JS A) (f : A -> JS B) :
  keyed k0 m -> (forall a, keyed k0 (f a)) -> keyed k0 (bind m f).
Proof.
  intros Hm Hf w Hk. unfold bind.
  destruct (Hm w Hk) as (Hk1 & t1 & Ht1 & F1).
  destruct (m w) as [w1 [|a|e]]; cbn in *;
    try (split; [exact Hk1 | by exists t1]).
  destruct (Hf a w1 Hk1) as (Hk2 & t2 & Ht2 & F2).
  split; [exact Hk2 |]. exists (t1 ++ t2). split.
  - by rewrite Ht2, Ht1, app_assoc.
  - by apply Forall_app.
Qed.

(** Reading the world: the continuation may rely on the key it sees. *)
Lemma keyed_bind_get {B} (f : World -> JS B) :
  (forall w0, storageOptions_key (this w0) = k0 -> keyed k0 (f w0)) ->
  keyed k0 (bind get f).
Proof. intros Hf w Hk. exact (Hf w Hk w Hk). Qed.

Lemma keyed_try_catch {A} (body : JS A) (handler : Error -> JS A) :
  keyed k0 body -> (forall e, keyed k0 (handler e)) -> keyed k0 (try_catch body handler).
Proof.
  intros Hm Hh w Hk. unfold try_catch.
  destruct (Hm w Hk) as (Hk1 & t1 & Ht1 & F1).
  destruct (body w) as [w1 [|a|e]]; cbn in *;
    try (split; [exact Hk1 | by exists t1]).
  destruct (Hh e w1 Hk1) as (Hk2 & t2 & Ht2 & F2).
  split; [exact Hk2 |]. exists (t1 ++ t2). split.
  - by rewrite Ht2, Ht1, app_assoc.
  - by apply Forall_app.
Qed.

Lemma keyed_new_Promise {A} (executor : JS (Promise A)) :
  keyed k0 executor -> keyed k0 (new_Promise executor).
Proof.
  intros Hm w Hk. unfold new_Promise.
  destruct (Hm w Hk) as (Hk1 & t1 & Ht1 & F1).
  destruct (executor w) as [w1 [|a|e]]; cbn in *;
    (split; [exact Hk1 | by exists t1]).
Qed.

Lemma uses_key_storage_getItem : uses_key k0 (storage_getItem k0).
Proof. by intros k [= <-]. Qed.

Lemma uses_key_storage_setItem (v : string) : uses_key k0 (storage_setItem k0 v).
Proof. by intros k [= <-]. Qed.

Lemma uses_key_storage_removeItem : uses_key k0 (storage_removeItem k0).
Proof. by intros k [= <-]. Qed.

End Keyed.

Ltac uses_key_tac :=
  let k := fresh "k" in
  let Hk := fresh "Hk" in
  intros k Hk; cbn in Hk;
  first [ discriminate Hk | injection Hk as <-; first [assumption | reflexivity] ].

Ltac keyed_step :=
  lazymatch goal with
  | |- keyed _ (ret _) => apply keyed_ret
  | |- keyed _ (throw _) => apply keyed_throw
  | |- keyed _ (await _) => apply keyed_await
  | |- keyed _ (lift _) => apply keyed_lift
  | |- keyed _ (alloc _) => apply keyed_alloc
  | |- keyed _ (tell _) => apply keyed_tell; uses_key_tac
  | |- keyed _ (modify _) => apply keyed_modify; intros ?; split; reflexivity
  | |- keyed _ (bind get _) => apply keyed_bind_get; intros ? ?
  | |- keyed _ (bind _ _) => apply keyed_bind; [| intros ?]
  | |- keyed _ (try_catch _ _) => apply keyed_try_catch; [| intros ?]
  | |- keyed _ (new_Promise _) => apply keyed_new_Promise
  | |- keyed _ (match ?x with _ => _ end) => destruct x
  end.

Ltac keyed_auto := repeat keyed_step.

Lemma storage_get_keyed (k0 : string) : keyed k0 storage_get.
Proof. unfold storage_get. keyed_auto. Qed.

Lemma storage_set_keyed (k0 v : string) : keyed k0 (storage_set v).
Proof. unfold storage_set. keyed_auto. Qed.

Lemma storage_remove_keyed (k0 : string) : keyed k0 storage_remove.
Proof. unfold storage_remove. keyed_auto. Qed.

Lemma forEach_eject_keyed (k0 : string) (ids : list nat) :
  keyed k0 (forEach_eject ids).
Proof.
  induction ids as [|id rest IH]; cbn [forEach_eject]; [apply keyed_ret |].
  keyed_auto. exact IH.
Qed.

Lemma ejectTriggeredInterceptors_keyed (k0 : string) :
  keyed k0 ejectTriggeredInterceptors.
Proof.
  unfold ejectTriggeredInterceptors. keyed_auto. apply forEach_eject_keyed.
Qed.

Lemma setUser_keyed (k0 : string) (payload : loc) : keyed k0 (setUser payload).
Proof.
  unfold setUser, set_authPayload, persistJWTTokenPayload. keyed_auto.
  apply storage_set_keyed.
Qed.

Lemma getUser_keyed (k0 : string) : keyed k0 getUser.
Proof. unfold getUser. keyed_auto; apply storage_get_keyed. Qed.

Lemma signIn_keyed (k0 : string) (u : User)
    (onSuccess : option (AuthPayload -> Completion unit)) :
  keyed k0 (signIn u onSuccess).
Proof.
  unfold signIn, set_user. keyed_auto;
    first [apply setUser_keyed | apply storage_remove_keyed].
Qed.

Lemma signOut_keyed (k0 : string) : keyed k0 signOut.
Proof.
  unfold signOut, set_user. keyed_auto;
    first [apply storage_remove_keyed | apply ejectTriggeredInterceptors_keyed].
Qed.

Lemma checkAccessTokenIsExpired_keyed (k0 : string)
    (decodeJwt : string -> Completion (option JWTPayload)) (now : number)
    (handleRefreshToken : string -> Promise AuthPayload) :
  keyed k0 (checkAccessTokenIsExpired decodeJwt now handleRefreshToken).
Proof.
  unfold checkAccessTokenIsExpired, tryOverrideTokenExpiration, set_user.
  keyed_auto;
    first [ apply setUser_keyed | apply storage_remove_keyed
          | apply ejectTriggeredInterceptors_keyed ].
Qed.

Lemma applyAxiosMiddleware_keyed (k0 : string) (c : client) :
  keyed k0 (applyAxiosMiddleware c).
Proof.
  unfold applyAxiosMiddleware, response_use, request_use, InterceptorManager_use.
  cbn. keyed_auto.
Qed.

(** X23: whatever key the constructor settled on, every public method
    keeps it and reads, writes and removes under that key only. *)
Lemma methods_use_configured_key (k0 : string) :
  keyed k0 getUser /\
  (forall payload, keyed k0 (setUser payload)) /\
  (forall u onSuccess, keyed k0 (signIn u onSuccess)) /\
  keyed k0 signOut /\
  (forall decodeJwt now handleRefreshToken,
     keyed k0 (checkAccessTokenIsExpired decodeJwt now handleRefreshToken)) /\
  (forall c, keyed k0 (applyAxiosMiddleware c)).
Proof.
  split; [apply getUser_keyed |].
  split; [apply setUser_keyed |].
  split; [apply signIn_keyed |].
  split; [apply signOut_keyed |].
  split; [apply checkAccessTokenIsExpired_keyed | apply applyAxiosMiddleware_keyed].
Qed.

(** In particular a manager constructed with [storageOptions] and the scope
    [app] signs in under [app:token]. *)
Lemma scoped_signIn_example :
  let w := fst (signIn u1 None (constructor empty_store scoped_options_with_storage)) in
  items (storage w) !! "app:token" = Some (JSON_stringify bootstrap_payload) /\
  items (storage w) !! "token" = None.
Proof. vm_compute. split; reflexivity. Qed.

(** * Further properties of the class *)

(** ** Relations kept by every step *)

Section Preserves.
Variable R : World -> World -> Prop.
Hypothesis R_refl : forall w, R w w.
Hypothesis R_trans : forall w1 w2 w3, R w1 w2 -> R w2 w3 -> R w1 w3.

Lemma preserves_ret {A} (a : A) : preserves R (ret a).
Proof. intros w. apply R_refl. Qed.

Lemma preserves_throw {A} (e : Error) : preserves R (@throw A e).
Proof. intros w. apply R_refl. Qed.

Lemma preserves_await {A} (p : Promise A) : preserves R (await p).
Proof. intros w. apply R_refl. Qed.

Lemma preserves_lift {A} (c : Completion A) : preserves R (lift c).
Proof. destruct c; [apply preserves_ret | apply preserves_throw]. Qed.

Lemma preserves_modify (f : World -> World) :
  (forall w, R w (f w)) -> preserves R (modify f).
Proof. intros Hf w. apply Hf. Qed.

Lemma preserves_bind {A B} (m : JS A) (f : A -> JS B) :
  preserves R m -> (forall a, preserves R (f a)) -> preserves R (bind m f).
Proof.
  intros Hm Hf w. unfold bind. specialize (Hm w).
  destruct (m w) as [w1 [|a|e]]; cbn in *; try exact Hm.
  exact (R_trans _ _ _ Hm (Hf a w1)).
Qed.

Lemma preserves_bind_get {B} (f : World -> JS B) :
  (forall w0, preserves R (f w0)) -> preserves R (bind get f).
Proof. intros Hf w. exact (Hf w w). Qed.

Lemma preserves_try_catch {A} (body : JS A) (handler : Error -> JS A) :
  preserves R body -> (forall e, preserves R (handler e)) ->
  preserves R (try_catch body handler).
Proof.
  intros Hm Hh w. unfold try_catch. specialize (Hm w).
  destruct (body w) as [w1 [|a|e]]; cbn in *; try exact Hm.
  exact (R_trans _ _ _ Hm (Hh e w1)).
Qed.

Lemma preserves_new_Promise {A} (executor : JS (Promise A)) :
  preserves R executor -> preserves R (new_Promise executor).
Proof.
  intros Hm w. unfold new_Promise. specialize (Hm w).
  by destruct (executor w) as [w1 [|a|e]].
Qed.

End Preserves.

(** One step of a proof that a method body preserves [R]: the structural
    rules; what is left are the [modify] steps, one goal each. *)
Ltac preserves_step Hrefl Htrans :=
  lazymatch goal with
  | |- preserves _ (ret _) => apply preserves_ret; exact Hrefl
  | |- preserves _ (throw _) => apply preserves_throw; exact Hrefl
  | |- preserves _ (await _) => apply preserves_await; exact Hrefl
  | |- preserves _ (lift _) => apply preserves_lift; exact Hrefl
  | |- preserves _ (tell _) => apply preserves_modify; intros ?
  | |- preserves _ (modify _) => apply preserves_modify; intros ?
  | |- preserves _ (bind get _) => apply preserves_bind_get; intros ?
  | |- preserves _ (bind _ _) => apply (preserves_bind _ Htrans); [| intros ?]
  | |- preserves _ (try_catch _ _) => apply (preserves_try_catch _ Htrans); [| intros ?]
  | |- preserves _ (new_Promise _) => apply preserves_new_Promise
  | |- preserves _ (match ?x with _ => _ end) => destruct x
  end.

Ltac js_open :=
  unfold signIn, setUser, getUser, signOut, checkAccessTokenIsExpired,
    persistJWTTokenPayload, tryOverrideTokenExpiration, ejectTriggeredInterceptors,
    storage_get, storage_set, storage_remove, set_user, set_authPayload.

(** ** The tokens of a payload object are read-only *)

Lemma tokens_kept_refl (w : World) : tokens_kept w w.
Proof. split; [lia | by intros l _]. Qed.

Lemma tokens_kept_trans (w1 w2 w3 : World) :
  tokens_kept w1 w2 -> tokens_kept w2 w3 -> tokens_kept w1 w3.
Proof.
  intros [H1 K1] [H2 K2]. split; [lia |]. intros l Hl.
  destruct (K1 l Hl) as [A1 B1]. destruct (K2 l ltac:(lia)) as [A2 B2].
  split; congruence.
Qed.

(** A step that leaves the heap alone. *)
Lemma tokens_kept_same_heap (w w' : World) :
  heap w' = heap w -> next_loc w' = next_loc w -> tokens_kept w w'.
Proof. intros Hh Hn. split; [lia |]. intros l _. by rewrite Hh. Qed.

Lemma alloc_tokens_kept (p : AuthPayload) : preserves tokens_kept (alloc p).
Proof.
  intros w. unfold tokens_kept. cbn. split; [lia |]. intros l Hl.
  rewrite upd_other by lia. by split.
Qed.

Lemma forEach_eject_tokens_kept (ids : list nat) :
  preserves tokens_kept (forEach_eject ids).
Proof.
  induction ids as [|id rest IH]; cbn [forEach_eject].
  - apply preserves_ret, tokens_kept_refl.
  - repeat preserves_step tokens_kept_refl tokens_kept_trans;
      first [exact IH | by apply tokens_kept_same_heap].
Qed.

Ltac tokens_auto :=
  repeat preserves_step tokens_kept_refl tokens_kept_trans;
  try (apply tokens_kept_same_heap; reflexivity);
  try apply alloc_tokens_kept;
  try apply forEach_eject_tokens_kept.

Lemma tryOverrideTokenExpiration_tokens_kept (l : loc) (jwtPayload : JWTPayload) :
  preserves tokens_kept (tryOverrideTokenExpiration l jwtPayload).
Proof.
  intros w. rewrite tryOverrideTokenExpiration_run. cbn [fst].
  split; [by destruct (after_override_frame l jwtPayload w) as (_ & _ & -> & _) |].
  intros l' _. destruct (decide (l' = l)) as [->|Hne].
  - apply after_override_tokens.
  - by rewrite after_override_other.
Qed.

Lemma setUser_tokens_kept (payload : loc) : preserves tokens_kept (setUser payload).
Proof. js_open. tokens_auto. Qed.

Lemma ejectTriggeredInterceptors_tokens_kept :
  preserves tokens_kept ejectTriggeredInterceptors.
Proof. js_open. tokens_auto. Qed.

Lemma signIn_tokens_kept (u : User)
    (onSuccess : option (AuthPayload -> Completion unit)) :
  preserves tokens_kept (signIn u onSuccess).
Proof.
  unfold signIn, set_user, storage_remove. tokens_auto.
  apply setUser_tokens_kept.
Qed.

Lemma signOut_tokens_kept : preserves tokens_kept signOut.
Proof.
  unfold signOut, set_user, storage_remove. tokens_auto.
  apply ejectTriggeredInterceptors_tokens_kept.
Qed.

Lemma getUser_tokens_kept : preserves tokens_kept getUser.
Proof. js_open. tokens_auto. Qed.

Lemma checkAccessTokenIsExpired_tokens_kept
    (decodeJwt : string -> Completion (option JWTPayload)) (now : number)
    (handleRefreshToken : string -> Promise AuthPayload) :
  preserves tokens_kept (checkAccessTokenIsExpired decodeJwt now handleRefreshToken).
Proof.
  unfold checkAccessTokenIsExpired, set_user, storage_remove. tokens_auto;
    first [ apply tryOverrideTokenExpiration_tokens_kept
          | apply setUser_tokens_kept
          | apply ejectTriggeredInterceptors_tokens_kept ].
Qed.

Lemma applyAxiosMiddleware_tokens_kept (c : client) :
  preserves tokens_kept (applyAxiosMiddleware c).
Proof.
  unfold applyAxiosMiddleware, response_use, request_use, InterceptorManager_use.
  cbn. tokens_auto.
Qed.

(** X1: whatever method of the class runs, and however it ends, every
    payload object that existed before still has the access token and the
    refresh token it had: the only field the class ever writes in a
    payload is [expiresIn]. *)
Theorem tokens_are_read_only :
  (forall u onSuccess, preserves tokens_kept (signIn u onSuccess)) /\
  (forall payload, preserves tokens_kept (setUser payload)) /\
  preserves tokens_kept getUser /\
  (forall decodeJwt now handleRefreshToken,
     preserves tokens_kept
       (checkAccessTokenIsExpired decodeJwt now handleRefreshToken)) /\
  preserves tokens_kept signOut /\
  (forall c, preserves tokens_kept (applyAxiosMiddleware c)).
Proof.
  split; [apply signIn_tokens_kept |].
  split; [apply setUser_tokens_kept |].
  split; [apply getUser_tokens_kept |].
  split; [apply checkAccessTokenIsExpired_tokens_kept |].
  split; [apply signOut_tokens_kept | apply applyAxiosMiddleware_tokens_kept].
Qed.

(** ** The in-memory payload is never cleared *)

Lemma payload_stays_refl (w : World) : payload_stays w w.
Proof. by intros H. Qed.

Lemma payload_stays_trans (w1 w2 w3 : World) :
  payload_stays w1 w2 -> payload_stays w2 w3 -> payload_stays w1 w3.
Proof. intros H1 H2 H. by apply H2, H1. Qed.

Lemma payload_stays_same (w w' : World) :
  authPayload (this w') = authPayload (this w) -> payload_stays w w'.
Proof. intros E H. by rewrite E. Qed.

Lemma payload_stays_set (w w' : World) :
  is_Some (authPayload (this w')) -> payload_stays w w'.
Proof. by intros H _. Qed.

Lemma forEach_eject_payload_stays (ids : list nat) :
  preserves payload_stays (forEach_eject ids).
Proof.
  induction ids as [|id rest IH]; cbn [forEach_eject].
  - apply preserves_ret, payload_stays_refl.
  - repeat preserves_step payload_stays_refl payload_stays_trans;
      first [exact IH | by apply payload_stays_same].
Qed.

Ltac payload_auto :=
  repeat preserves_step payload_stays_refl payload_stays_trans;
  try (apply payload_stays_same; reflexivity);
  try (apply payload_stays_set; cbn; eauto; fail);
  try apply forEach_eject_payload_stays.

Lemma alloc_payload_stays (p : AuthPayload) : preserves payload_stays (alloc p).
Proof. intros w. by apply payload_stays_same. Qed.

Lemma setUser_payload_stays (payload : loc) : preserves payload_stays (setUser payload).
Proof. js_open. payload_auto. Qed.

Lemma ejectTriggeredInterceptors_payload_stays :
  preserves payload_stays ejectTriggeredInterceptors.
Proof. js_open. payload_auto. Qed.

(** X2: no method ever sets [this.authPayload] back to [null]: not
    [signOut], not the forced teardown, not a failed [signIn].  Once a
    payload is in memory, some payload stays in memory for the life of the
    manager. *)
Theorem payload_is_never_cleared :
  (forall u onSuccess, preserves payload_stays (signIn u onSuccess)) /\
  (forall payload, preserves payload_stays (setUser payload)) /\
  preserves payload_stays getUser /\
  (forall decodeJwt now handleRefreshToken,
     preserves payload_stays
       (checkAccessTokenIsExpired decodeJwt now handleRefreshToken)) /\
  preserves payload_stays signOut /\
  (forall c, preserves payload_stays (applyAxiosMiddleware c)).
Proof.
  repeat split; intros.
  - unfold signIn, set_user, storage_remove. payload_auto;
      first [apply alloc_payload_stays | apply setUser_payload_stays].
  - apply setUser_payload_stays.
  - js_open. payload_auto.
  - unfold checkAccessTokenIsExpired, tryOverrideTokenExpiration, set_user,
      storage_remove.
    payload_auto;
      first [ apply alloc_payload_stays | apply setUser_payload_stays
            | apply ejectTriggeredInterceptors_payload_stays ].
  - unfold signOut, set_user, storage_remove. payload_auto.
    apply ejectTriggeredInterceptors_payload_stays.
  - unfold applyAxiosMiddleware, response_use, request_use, InterceptorManager_use.
    cbn. payload_auto.
Qed.

(** ** How [signIn] ends *)

Lemma signIn_pending (w : World) (u : User)
    (onSuccess : option (AuthPayload -> Completion unit)) :
  authorize (this w) u = Pending ->
  signIn u onSuccess w = (with_trace (trace w ++ [call_authorize u]) w, Pending).
Proof. intros H. js_run. by rewrite H. Qed.

(** The world [signIn] leaves behind when everything up to and including
    the [SIGNIN] event went well and [onSuccess] then throws. *)
Lemma signIn_onSuccess_throws
    (w : World) (u : User) (p : AuthPayload)
    (f : AuthPayload -> Completion unit) (e : Error) :
  authorize (this w) u = Fulfilled (Some p) ->
  setItem_fault (storage w) = None ->
  f p = Throw e ->
  signIn u (Some f) w =
    (with_trace
       (trace w ++
        [call_authorize u;
         assign_user (Some u);
         assign_authPayload (next_loc w);
         storage_setItem (storageOptions_key (this w)) (JSON_stringify p);
         emitter_emit SETUSER (PayloadData (next_loc w));
         console_log "The user payload has been successfully updated.";
         emitter_emit SIGNIN (SignInData (next_loc w) u);
         console_log "The user has beed successfully signed in";
         call_onSuccess (next_loc w);
         console_error e;
         assign_user None;
         storage_removeItem (storageOptions_key (this w))])
       (with_storage
          (Storage_removeItem
             (Storage_put (storageOptions_key (this w)) (JSON_stringify p) (storage w))
             (storageOptions_key (this w)))
          (with_this (fun a => put_user None (put_authPayload (Some (next_loc w)) a))
             (with_heap (upd (heap w) (next_loc w) p) (S (next_loc w)) w))),
     Fulfilled tt).
Proof.
  intros Hauth Hset Hcb.
  unfold signIn, try_catch, bind, get, await, tell, modify, alloc, set_user,
    storage_remove, ret.
  cbn. rewrite Hauth. cbn.
  erewrite setUser_fulfilled; cycle 1.
  { cbn. unfold Storage_setItem. rewrite Hset. reflexivity. }
  cbn. rewrite upd_same. unfold lift. rewrite ?upd_same, Hcb.
  cbv beta iota zeta delta
    [throw storage_remove with_trace with_storage with_this with_heap bind get
     tell modify this storage heap next_loc clients trace fst snd].
  rewrite <- !app_assoc. reflexivity.
Qed.

(** X3: the promise of [signIn] is never rejected.  It stays pending
    exactly when [authorize] never settles; in every other case (a
    rejection, a falsy result, a failed write, a throwing [onSuccess], or
    success) it is fulfilled. *)
Theorem signIn_never_rejects
    (w : World) (u : User) (onSuccess : option (AuthPayload -> Completion unit)) :
  snd (signIn u onSuccess w) =
    match authorize (this w) u with
    | Pending => Pending
    | _ => Fulfilled tt
    end.
Proof.
  destruct (authorize (this w) u) as [|[p|]|e] eqn:Hauth.
  - by rewrite (signIn_pending _ _ _ Hauth).
  - destruct (setItem_fault (storage w)) as [e|] eqn:Hset.
    + by rewrite (signIn_write_failure _ _ _ _ _ Hauth Hset).
    + destruct onSuccess as [f|].
      * destruct (f p) as [[]|e] eqn:Hf.
        -- by rewrite (signIn_fulfilled _ _ _ (Some f) Hauth Hset Hf).
        -- by rewrite (signIn_onSuccess_throws _ _ _ _ _ Hauth Hset Hf).
      * by rewrite (signIn_fulfilled _ _ _ None Hauth Hset I).
  - by rewrite (signIn_falsy _ _ _ Hauth).
  - by rewrite (signIn_rejected _ _ _ _ Hauth).
Qed.

(** X4: when [authorize] resolves, the payload is stored and [SIGNIN] is
    emitted, and the [onSuccess] callback then throws, [signIn] undoes the
    sign-in in its [catch] block: the promise is fulfilled, but the user is
    cleared and the token is removed from the storage again, after the
    [SIGNIN] event has already gone out; the payload stays in memory. *)
Theorem signIn_undone_by_throwing_onSuccess
    (w : World) (u : User) (p : AuthPayload)
    (f : AuthPayload -> Completion unit) (e : Error) :
  authorize (this w) u = Fulfilled (Some p) ->
  setItem_fault (storage w) = None ->
  f p = Throw e ->
  let w' := fst (signIn u (Some f) w) in
  let added := skipn (length (trace w)) (trace w') in
  snd (signIn u (Some f) w) = Fulfilled tt /\
  user (this w') = None /\
  items (storage w') !! storageOptions_key (this w) = None /\
  authPayload (this w') = Some (next_loc w) /\
  heap w' (next_loc w) = p /\
  emitter_emit SIGNIN (SignInData (next_loc w) u) ∈ added.
Proof.
  intros Hauth Hset Hcb w' added. subst added w'.
  rewrite (signIn_onSuccess_throws _ _ _ _ _ Hauth Hset Hcb). cbn [fst snd].
  cbn. rewrite lookup_delete_eq, upd_same, drop_app_length.
  repeat split; try reflexivity.
  do 6 apply list_elem_of_further. apply list_elem_of_here.
Qed.

Lemma signIn_undone_witness :
  let w' := fst (signIn u1 (Some (fun _ => Throw "boom")) (bootstrap empty_store)) in
  user (this w') = None /\
  items (storage w') !! "token" = None /\
  authPayload (this w') = Some 0%nat.
Proof.
  pose proof (signIn_undone_by_throwing_onSuccess (bootstrap empty_store) u1
                bootstrap_payload (fun _ => Throw "boom") "boom"
                eq_refl eq_refl eq_refl) as H.
  cbv zeta in H. destruct H as (_ & H2 & H3 & H4 & _).
  split; [exact H2 |]. split; [exact H3 | exact H4].
Defined.

(** ** How [checkAccessTokenIsExpired] ends *)

(** X5: with a decoder that does not throw on the current access token,
    the promise of [checkAccessTokenIsExpired] is never rejected, whatever
    the refresh function and the storage do: a rejected refresh and a
    failed write both end in the teardown, not in a rejection. *)
Theorem check_rejects_only_from_decoder
    (decodeJwt : string -> Completion (option JWTPayload)) (now : number)
    (handleRefreshToken : string -> Promise AuthPayload)
    (w : World) (e : Error) :
  snd (checkAccessTokenIsExpired decodeJwt now handleRefreshToken w) = Rejected e ->
  exists l,
    authPayload (this w) = Some l /\
    truthy_string (accessToken (heap w l)) = true /\
    decodeJwt (accessToken (heap w l)) = Throw e.
Proof.
  destruct (authPayload (this w)) as [l|] eqn:Hl;
    [| by rewrite check_no_payload].
  destruct (truthy_string (accessToken (heap w l))) eqn:Htok;
    [| by rewrite (check_no_token _ _ _ _ l)].
  destruct (decodeJwt (accessToken (heap w l))) as [[jwt|]|e'] eqn:Hdec.
  - destruct (expired now (expiry_after_override (heap w l) jwt)) eqn:Hexp;
      [| by rewrite (check_not_expired _ _ _ _ l jwt)].
    destruct (handleRefreshToken (refreshToken (heap w l))) as [|p|e'] eqn:Href.
    + by rewrite (check_refresh_pending _ _ _ _ l jwt).
    + destruct (setItem_fault (storage w)) as [e'|] eqn:Hset.
      * by destruct (check_refresh_write_fails _ _ _ _ l jwt Hl Htok Hdec p e'
                       Hexp Href Hset) as [-> _].
      * destruct (check_refresh_stored _ _ _ _ l jwt Hl Htok Hdec p Hexp Href Hset)
          as [-> ->]. discriminate.
    + by rewrite (check_refresh_rejected _ _ _ _ l jwt Hl Htok Hdec e' Hexp Href).
  - by rewrite (check_decoder_null _ _ _ _ l).
  - rewrite (check_decoder_throws _ _ _ _ l e') by done.
    intros [= ->]. by exists l.
Qed.

Lemma check_rejects_only_from_decoder_witness :
  exists l,
    authPayload (this signed_in) = Some l /\
    truthy_string (accessToken (heap signed_in l)) = true /\
    jose_strict (accessToken (heap signed_in l)) = Throw "Invalid JWT".
Proof.
  apply (check_rejects_only_from_decoder jose_strict 0 refresh_rejects signed_in
           "Invalid JWT").
  reflexivity.
Defined.

(** X6: a check on a token that is not expired does no I/O at all: the
    refresh function is not called, the storage is not touched, no event is
    emitted and nothing is logged.  The one thing it may do is fill in
    [expiresIn] of the current payload from the [exp] claim. *)
Theorem check_unexpired_is_silent
    (decodeJwt : string -> Completion (option JWTPayload)) (now : number)
    (handleRefreshToken : string -> Promise AuthPayload)
    (w : World) (l : loc) (jwtPayload : JWTPayload) :
  authPayload (this w) = Some l ->
  truthy_string (accessToken (heap w l)) = true ->
  decodeJwt (accessToken (heap w l)) = Return (Some jwtPayload) ->
  expired now (expiry_after_override (heap w l) jwtPayload) = false ->
  let r := checkAccessTokenIsExpired decodeJwt now handleRefreshToken w in
  snd r = Fulfilled tt /\
  trace (fst r) = trace w /\
  this (fst r) = this w /\
  storage (fst r) = storage w /\
  clients (fst r) = clients w /\
  (forall l', l' <> l -> heap (fst r) l' = heap w l') /\
  accessToken (heap (fst r) l) = accessToken (heap w l) /\
  refreshToken (heap (fst r) l) = refreshToken (heap w l) /\
  expiresIn (heap (fst r) l) = expiry_after_override (heap w l) jwtPayload.
Proof.
  intros Hl Htok Hdec Hexp r. subst r.
  rewrite (check_not_expired _ _ _ _ l jwtPayload Hl Htok Hdec Hexp). cbn [fst snd].
  destruct (after_override_frame l jwtPayload w) as (H1 & H2 & _ & H4 & H5).
  destruct (after_override_tokens l jwtPayload w) as [T1 T2].
  split; [reflexivity |]. split; [exact H5 |]. split; [exact H1 |].
  split; [exact H2 |]. split; [exact H4 |].
  split; [intros l' Hne; by apply after_override_other |].
  split; [exact T1 |]. split; [exact T2 |].
  apply after_override_expiresIn.
Qed.

Lemma check_unexpired_witness :
  let r := checkAccessTokenIsExpired decode_exp 5 refresh_rejects signed_in in
  snd r = Fulfilled tt /\
  trace (fst r) = trace signed_in /\
  expiresIn (heap (fst r) 0%nat) = Some 1700000000.
Proof.
  pose proof (check_unexpired_is_silent decode_exp 5 refresh_rejects signed_in 0%nat
                (mkJWTPayload (Some 1700000000) None)
                eq_refl eq_refl eq_refl eq_refl) as H.
  cbv zeta in H. destruct H as (H1 & H2 & _ & _ & _ & _ & _ & _ & H9).
  split; [exact H1 |]. split; [exact H2 | exact H9].
Defined.

Ltac world_fields :=
  cbn
    [with_trace with_storage with_this with_heap with_clients
     put_user put_authPayload put_ejectIds put_axiosInstance put_key
     this storage heap next_loc clients trace
     user authPayload storageOptions_key axiosInstance axiosInterceptorEjectIds
     authorize signOutCallback fst snd].

(** X7: when the token is expired, the refresh function resolves and the
    write succeeds, [checkAccessTokenIsExpired] is fulfilled, the refreshed
    payload becomes the in-memory payload and is stored under the
    configured key, [SETUSER] is emitted; the user and the registered
    interceptors are left alone and nothing else happens. *)
Theorem check_refresh_replaces_payload
    (decodeJwt : string -> Completion (option JWTPayload)) (now : number)
    (handleRefreshToken : string -> Promise AuthPayload)
    (w : World) (l : loc) (jwtPayload : JWTPayload) (p : AuthPayload) :
  authPayload (this w) = Some l ->
  truthy_string (accessToken (heap w l)) = true ->
  decodeJwt (accessToken (heap w l)) = Return (Some jwtPayload) ->
  expired now (expiry_after_override (heap w l) jwtPayload) = true ->
  handleRefreshToken (refreshToken (heap w l)) = Fulfilled p ->
  setItem_fault (storage w) = None ->
  let r := checkAccessTokenIsExpired decodeJwt now handleRefreshToken w in
  let key := storageOptions_key (this w) in
  snd r = Fulfilled tt /\
  authPayload (this (fst r)) = Some (next_loc w) /\
  heap (fst r) (next_loc w) = p /\
  items (storage (fst r)) !! key = Some (JSON_stringify p) /\
  user (this (fst r)) = user (this w) /\
  axiosInterceptorEjectIds (this (fst r)) = axiosInterceptorEjectIds (this w) /\
  clients (fst r) = clients w /\
  trace (fst r) =
    trace w ++
    [call_handleRefreshToken (refreshToken (heap w l));
     assign_authPayload (next_loc w);
     storage_setItem key (JSON_stringify p);
     emitter_emit SETUSER (PayloadData (next_loc w));
     console_log "The user payload has been successfully updated."].
Proof.
  intros Hl Htok Hdec Hexp Href Hset r key. subst r key.
  destruct (check_refresh_stored _ _ _ _ l jwtPayload Hl Htok Hdec p Hexp Href Hset)
    as [-> _].
  destruct (after_override_frame l jwtPayload w) as (Hthis & Hsto & Hnext & Hcl & Htr).
  erewrite setUser_fulfilled; cycle 1.
  { world_fields. rewrite Hsto, Hthis. unfold Storage_setItem. rewrite Hset.
    reflexivity. }
  world_fields. rewrite ?Hthis, ?Hsto, ?Hnext, ?Hcl, ?Htr, ?upd_same.
  cbn [Storage_put items]. rewrite lookup_insert_eq, <- !app_assoc.
  repeat split; reflexivity.
Qed.

Lemma check_refresh_replaces_payload_witness :
  let r := checkAccessTokenIsExpired decode_exp late
             (fun _ => Fulfilled (mkAuthPayload "a2" "r2" None)) signed_in in
  authPayload (this (fst r)) = Some 1%nat /\
  heap (fst r) 1%nat = mkAuthPayload "a2" "r2" None.
Proof.
  pose proof (check_refresh_replaces_payload decode_exp late
                (fun _ => Fulfilled (mkAuthPayload "a2" "r2" None)) signed_in 0%nat
                (mkJWTPayload (Some 1700000000) None) (mkAuthPayload "a2" "r2" None)
                eq_refl eq_refl eq_refl eq_refl eq_refl eq_refl) as H.
  cbv zeta in H. destruct H as (_ & H2 & H3 & _).
  split; [exact H2 | exact H3].
Defined.

(** X8: when the refresh function resolves but the refreshed payload
    cannot be written, the rejection of [setUser] is handled like a failed
    refresh: the promise is fulfilled, the user is cleared, the stored
    token is removed and the registry of ids is emptied; yet the in-memory
    payload is already the refreshed one, which is stored nowhere. *)
Theorem check_refresh_write_failure_tears_down
    (decodeJwt : string -> Completion (option JWTPayload)) (now : number)
    (handleRefreshToken : string -> Promise AuthPayload)
    (w : World) (l : loc) (jwtPayload : JWTPayload) (p : AuthPayload) (e : Error) :
  authPayload (this w) = Some l ->
  truthy_string (accessToken (heap w l)) = true ->
  decodeJwt (accessToken (heap w l)) = Return (Some jwtPayload) ->
  expired now (expiry_after_override (heap w l) jwtPayload) = true ->
  handleRefreshToken (refreshToken (heap w l)) = Fulfilled p ->
  setItem_fault (storage w) = Some e ->
  let r := checkAccessTokenIsExpired decodeJwt now handleRefreshToken w in
  snd r = Fulfilled tt /\
  user (this (fst r)) = None /\
  items (storage (fst r)) !! storageOptions_key (this w) = None /\
  axiosInterceptorEjectIds (this (fst r)) = [] /\
  authPayload (this (fst r)) = Some (next_loc w) /\
  heap (fst r) (next_loc w) = p.
Proof.
  intros Hl Htok Hdec Hexp Href Hset r. subst r.
  destruct (check_refresh_write_fails _ _ _ _ l jwtPayload Hl Htok Hdec p e
              Hexp Href Hset) as [-> _].
  destruct (after_override_frame l jwtPayload w) as (Hthis & Hsto & Hnext & Hcl & Htr).
  cbn [fst snd].
  rewrite torn_down_user, torn_down_ids, torn_down_authPayload, torn_down_heap.
  split; [reflexivity |]. split; [reflexivity |].
  erewrite setUser_rejected; cycle 1.
  { world_fields. rewrite Hsto, Hthis. unfold Storage_setItem. rewrite Hset.
    reflexivity. }
  cbn [fst].
  match goal with
  | |- context [torn_down e ?W] =>
      assert (Hk : storageOptions_key (this W) = storageOptions_key (this w))
        by (world_fields; by rewrite Hthis);
      pose proof (torn_down_removed e W) as Hrm; rewrite Hk in Hrm
  end.
  split; [exact Hrm |]. split; [reflexivity |].
  world_fields. rewrite Hnext. split; [reflexivity | apply upd_same].
Qed.

Lemma check_refresh_write_failure_witness :
  let r := checkAccessTokenIsExpired decode_exp late
             (fun _ => Fulfilled (mkAuthPayload "a2" "r2" None)) writes_fail in
  user (this (fst r)) = None /\
  authPayload (this (fst r)) = Some 1%nat.
Proof.
  pose proof (check_refresh_write_failure_tears_down decode_exp late
                (fun _ => Fulfilled (mkAuthPayload "a2" "r2" None)) writes_fail 0%nat
                (mkJWTPayload (Some 1700000000) None) (mkAuthPayload "a2" "r2" None)
                "QuotaExceededError"
                eq_refl eq_refl eq_refl eq_refl eq_refl eq_refl) as H.
  cbv zeta in H. destruct H as (_ & H2 & _ & _ & H5 & _).
  split; [exact H2 | exact H5].
Defined.

(** ** [signOut] *)

Lemma signed_out_authPayload (w : World) :
  authPayload (this (signed_out w)) = authPayload (this w).
Proof. unfold signed_out. world_fields. by rewrite after_eject_authPayload. Qed.

Lemma signed_out_key (w : World) :
  storageOptions_key (this (signed_out w)) = storageOptions_key (this w).
Proof. unfold signed_out. world_fields. by rewrite after_eject_key. Qed.

Lemma signed_out_signOutCallback (w : World) :
  signOutCallback (this (signed_out w)) = signOutCallback (this w).
Proof. unfold signed_out. world_fields. by rewrite after_eject_signOutCallback. Qed.

Lemma signed_out_storage (w : World) :
  storage (signed_out w) = Storage_removeItem (storage w) (storageOptions_key (this w)).
Proof. unfold signed_out. world_fields. by rewrite after_eject_storage. Qed.

Lemma signed_out_heap (w : World) : heap (signed_out w) = heap w.
Proof. unfold signed_out. world_fields. by rewrite after_eject_heap. Qed.

(** X9: [signOut] does all of its own work before it calls the sign-out
    callback, and its promise is the callback's promise.  So whether the
    callback resolves, rejects or never settles, the stored token is
    already removed, the user cleared, the registry of ids emptied and
    [SIGNOUT] emitted; a rejection of the callback is the only way
    [signOut] rejects. *)
Theorem signOut_finishes_before_callback (w : World) :
  let w' := fst (signOut w) in
  snd (signOut w) = signOut_outcome w /\
  user (this w') = None /\
  items (storage w') !! storageOptions_key (this w) = None /\
  axiosInterceptorEjectIds (this w') = [] /\
  trace w' =
    trace w
      ++ [storage_removeItem (storageOptions_key (this w)); assign_user None]
      ++ eject_trace (axiosInstance (this w)) (axiosInterceptorEjectIds (this w))
      ++ [emitter_emit SIGNOUT NoData]
      ++ signOutCallback_trace w.
Proof.
  cbv zeta. rewrite signOut_run. cbn [fst snd].
  rewrite signed_out_user, signed_out_ids, signed_out_removed, signed_out_trace.
  repeat split; reflexivity.
Qed.

(** X10: a second [signOut] finds nothing left to do: it ejects nothing
    (the registry is empty), leaves the storage and every client as the
    first one left them, and only repeats the [removeItem] call, the
    [SIGNOUT] event and the callback. *)
Theorem signOut_twice (w : World) :
  let w1 := fst (signOut w) in
  let w2 := fst (signOut w1) in
  user (this w2) = None /\
  storage w2 = storage w1 /\
  clients w2 = clients w1 /\
  heap w2 = heap w1 /\
  axiosInterceptorEjectIds (this w2) = [] /\
  trace w2 =
    trace w1
      ++ [storage_removeItem (storageOptions_key (this w)); assign_user None;
          emitter_emit SIGNOUT NoData]
      ++ signOutCallback_trace w.
Proof.
  cbv zeta. rewrite !signOut_run. cbn [fst].
  set (w1 := signed_out w).
  assert (Hids : axiosInterceptorEjectIds (this w1) = []) by apply signed_out_ids.
  assert (Hkey : storageOptions_key (this w1) = storageOptions_key (this w))
    by apply signed_out_key.
  assert (Hcb : signOutCallback_trace w1 = signOutCallback_trace w).
  { unfold signOutCallback_trace. unfold w1. by rewrite signed_out_signOutCallback. }
  assert (Hsto : storage w1 =
                 Storage_removeItem (storage w) (storageOptions_key (this w)))
    by apply signed_out_storage.
  rewrite signed_out_user, signed_out_ids, signed_out_trace, signed_out_storage,
    signed_out_heap, Hids, Hkey, Hcb.
  split; [reflexivity |]. split.
  { rewrite Hsto. unfold Storage_removeItem. cbn [items getItem_fault setItem_fault].
    by rewrite delete_delete_eq. }
  split.
  { unfold signed_out at 1. world_fields. unfold after_eject at 1. world_fields.
    by rewrite Hids. }
  split; [reflexivity |]. split; [reflexivity |].
  unfold eject_trace. by destruct (axiosInstance (this w1)).
Qed.

(** ** Sign-in, sign-out and [getUser] together *)

(** X11: after a successful [signIn(user)], and as long as the storage can
    be read, [getUser()] resolves to that user. *)
Theorem signIn_then_getUser
    (w : World) (u : User) (p : AuthPayload)
    (onSuccess : option (AuthPayload -> Completion unit)) :
  authorize (this w) u = Fulfilled (Some p) ->
  setItem_fault (storage w) = None ->
  getItem_fault (storage w) = None ->
  onSuccess_returns onSuccess p ->
  snd (getUser (fst (signIn u onSuccess w))) = Fulfilled (Some u).
Proof.
  intros Hauth Hset Hget Hcb.
  rewrite (signIn_fulfilled _ _ _ _ Hauth Hset Hcb). cbn [fst].
  unfold getUser, new_Promise, try_catch, storage_get, bind, get, tell, modify, lift.
  world_fields. unfold Storage_getItem. cbn [Storage_put getItem_fault items].
  rewrite Hget, lookup_insert_eq. reflexivity.
Qed.

Lemma signIn_then_getUser_witness :
  snd (getUser signed_in) = Fulfilled (Some u1).
Proof.
  apply (signIn_then_getUser (bootstrap empty_store) u1 bootstrap_payload None);
    [reflexivity | reflexivity | reflexivity | exact I].
Defined.

(** X12: after [signOut()], whatever the sign-out callback did, [getUser()]
    resolves to [null] as long as the storage can be read. *)
Theorem signOut_then_getUser (w : World) :
  getItem_fault (storage w) = None ->
  snd (getUser (fst (signOut w))) = Fulfilled None.
Proof.
  intros Hget. rewrite signOut_run. cbn [fst].
  unfold getUser, new_Promise, try_catch, storage_get, bind, get, tell, modify, lift.
  world_fields. rewrite signed_out_storage, signed_out_key.
  unfold Storage_getItem, Storage_removeItem. cbn [getItem_fault items].
  rewrite Hget, lookup_delete_eq. reflexivity.
Qed.

Lemma signOut_then_getUser_witness :
  snd (getUser (fst (signOut signed_in))) = Fulfilled None.
Proof. apply (signOut_then_getUser signed_in). reflexivity. Defined.

(** X13: the scenario of a forced teardown: the token is expired and the
    refresh function rejects; a later [getUser()] resolves to [null]. *)
Theorem forced_teardown_then_getUser
    (decodeJwt : string -> Completion (option JWTPayload)) (now : number)
    (handleRefreshToken : string -> Promise AuthPayload)
    (w : World) (l : loc) (jwtPayload : JWTPayload) (e : Error) :
  authPayload (this w) = Some l ->
  truthy_string (accessToken (heap w l)) = true ->
  decodeJwt (accessToken (heap w l)) = Return (Some jwtPayload) ->
  expired now (expiry_after_override (heap w l) jwtPayload) = true ->
  handleRefreshToken (refreshToken (heap w l)) = Rejected e ->
  getItem_fault (storage w) = None ->
  snd (getUser (fst (checkAccessTokenIsExpired decodeJwt now handleRefreshToken w)))
  = Fulfilled None.
Proof.
  intros Hl Htok Hdec Hexp Href Hget.
  rewrite (check_refresh_rejected _ _ _ _ l jwtPayload Hl Htok Hdec e Hexp Href).
  cbn [fst].
  destruct (after_override_frame l jwtPayload w) as (Hthis & Hsto & _).
  match goal with |- context [torn_down e ?W] => set (w2 := W) end.
  assert (Hk : storageOptions_key (this (torn_down e w2)) = storageOptions_key (this w)).
  { rewrite torn_down_key. unfold w2. world_fields. by rewrite Hthis. }
  assert (Hs : storage (torn_down e w2) =
               Storage_removeItem (storage w) (storageOptions_key (this w))).
  { unfold torn_down. world_fields. rewrite after_eject_storage, after_eject_key.
    unfold w2. world_fields. by rewrite Hsto, Hthis. }
  unfold getUser, new_Promise, try_catch, storage_get, bind, get, tell, modify, lift.
  world_fields. rewrite Hk, Hs.
  unfold Storage_getItem, Storage_removeItem. cbn [getItem_fault items].
  rewrite Hget, lookup_delete_eq. reflexivity.
Qed.

Lemma forced_teardown_then_getUser_witness :
  snd (getUser (fst (checkAccessTokenIsExpired decode_exp late refresh_rejects
                       signed_in)))
  = Fulfilled None.
Proof.
  apply (forced_teardown_then_getUser decode_exp late refresh_rejects signed_in 0%nat
           (mkJWTPayload (Some 1700000000) None) "401"); reflexivity.
Defined.

(** ** [getUser] only reads *)

Lemma same_state_refl (w : World) : same_state w w.
Proof. by repeat split. Qed.

Lemma same_state_trans (w1 w2 w3 : World) :
  same_state w1 w2 -> same_state w2 w3 -> same_state w1 w3.
Proof.
  intros (A1 & B1 & C1 & D1 & E1) (A2 & B2 & C2 & D2 & E2).
  repeat split; congruence.
Qed.

(** X14: [getUser] never changes the manager, the storage, a payload or a
    client, whether the read returns a value, returns [null] or throws;
    and its promise is always settled. *)
Theorem getUser_only_reads (w : World) :
  same_state w (fst (getUser w)) /\ snd (getUser w) <> Pending.
Proof.
  split.
  - revert w. change (preserves same_state getUser).
    unfold getUser, storage_get.
    repeat preserves_step same_state_refl same_state_trans;
      by repeat split.
  - unfold getUser, new_Promise, try_catch, storage_get, bind, get, tell, modify,
      lift, ret, throw.
    world_fields.
    destruct (Storage_getItem (storage w) (storageOptions_key (this w)))
      as [[v|]|e]; cbn; discriminate.
Qed.

(** ** Ejecting what was never installed *)

Lemma eject_all_two (i j : nat) (c : AxiosInstance) :
  request_handlers (eject_all [i; j] c) =
  <[j := None]> (<[i := None]> (request_handlers c)).
Proof. reflexivity. Qed.

(** X15: the ids that [applyAxiosMiddleware] records are indices into two
    different arrays, but [signOut] ejects both from the request manager.
    On a client that already had more request interceptors than response
    interceptors, [signOut] therefore removes a request interceptor that
    was there before the middleware was applied. *)
Theorem signOut_ejects_foreign_request_interceptor
    (w : World) (c : client) (h : option Interceptor) :
  axiosInterceptorEjectIds (this w) = [] ->
  let r := length (response_handlers (clients w c)) in
  request_handlers (clients w c) !! r = Some h ->
  let w' := fst (signOut (fst (applyAxiosMiddleware c w))) in
  request_handlers (clients w' c) !! r = Some None /\
  response_handlers (clients w' c) =
    response_handlers (clients w c) ++ [Some AuthRefreshInterceptor].
Proof.
  intros Hids r Hh w'. subst w'.
  destruct (applyAxiosMiddleware_run c w) as (Hinst & Hresp & Hreq & Hrec).
  rewrite Hids in Hrec. cbn [app] in Hrec.
  set (w0 := fst (applyAxiosMiddleware c w)) in *.
  rewrite signOut_run. cbn [fst]. rewrite signed_out_response. split; [| exact Hresp].
  unfold signed_out. world_fields. unfold after_eject. world_fields.
  rewrite Hrec, Hinst. world_fields.
  rewrite eject_loop_target, eject_all_two, Hreq.
  fold r.
  assert (Hlt : (r < length (request_handlers (clients w c)))%nat)
    by (eapply lookup_lt_Some; exact Hh).
  destruct (decide (r = length (request_handlers (clients w c)))) as [E|Hne]; [lia |].
  rewrite list_lookup_insert_ne by (symmetry; exact Hne).
  apply list_lookup_insert_eq. rewrite length_app. lia.
Qed.

Lemma signOut_ejects_foreign_witness :
  let w := with_clients
             (upd (clients signed_in) 0%nat
                  (mkAxiosInstance [Some (ForeignInterceptor 7)] []))
             signed_in in
  let w' := fst (signOut (fst (applyAxiosMiddleware 0%nat w))) in
  request_handlers (clients w 0%nat) !! 0%nat = Some (Some (ForeignInterceptor 7)) /\
  request_handlers (clients w' 0%nat) !! 0%nat = Some None.
Proof.
  cbv zeta. split; [reflexivity |].
  pose proof (signOut_ejects_foreign_request_interceptor
                (with_clients
                   (upd (clients signed_in) 0%nat
                        (mkAxiosInstance [Some (ForeignInterceptor 7)] []))
                   signed_in)
                0%nat (Some (ForeignInterceptor 7)) eq_refl eq_refl) as H.
  cbv zeta in H. exact (proj1 H).
Defined.

(** ** The interceptors read the payload when they run *)

(** X16: from the moment [setUser(payload)] has been called, the request
    interceptor sends that payload's access token, and the failure handler
    retries with it, even when the write failed and [setUser] rejected. *)
Theorem interceptors_follow_setUser
    (w : World) (payload : loc) (config : RequestConfig)
    (failedRequest : AxiosError) (res : AxiosResponse) :
  truthy_string (accessToken (heap w payload)) = true ->
  err_response failedRequest = Some res ->
  let w' := fst (setUser payload w) in
  let header := bearer (accessToken (heap w payload)) in
  cfg_headers (onRequest w' config) !! "authorization" = Some header /\
  (forall name, name <> "authorization" ->
     cfg_headers (onRequest w' config) !! name = cfg_headers config !! name) /\
  cfg_url (onRequest w' config) = cfg_url config /\
  onFailedRequest w' failedRequest =
    handler_resolve
      {| err_message := err_message failedRequest;
         err_response :=
           Some {| res_status := res_status res;
                   res_headers := <["authorization" := header]> (res_headers res) |} |}.
Proof.
  intros Htok Hres w' header. subst w' header.
  assert (H : authPayload (this (fst (setUser payload w))) = Some payload /\
              heap (fst (setUser payload w)) = heap w).
  { destruct (Storage_setItem (storage w) (storageOptions_key (this w))
                (JSON_stringify (heap w payload))) as [s'|e] eqn:E.
    - by rewrite (setUser_fulfilled _ _ _ E).
    - by rewrite (setUser_rejected _ _ _ E). }
  destruct H as [Hp Hh].
  unfold onRequest, onFailedRequest. rewrite Hp, Hh, Htok, Hres. cbn.
  split; [apply lookup_insert_eq |]. split; [| by split].
  intros name Hne. by apply lookup_insert_ne.
Qed.

Lemma interceptors_follow_setUser_witness :
  cfg_headers
    (onRequest (fst (setUser 0%nat writes_fail)) (mkRequestConfig "/me" ∅))
    !! "authorization"
  = Some "Bearer access token".
Proof.
  pose proof (interceptors_follow_setUser writes_fail 0%nat (mkRequestConfig "/me" ∅)
                (mkAxiosError "401" (Some (mkAxiosResponse 401 ∅)))
                (mkAxiosResponse 401 ∅) eq_refl eq_refl) as H.
  cbv zeta in H. exact (proj1 H).
Defined.

(** X17: signing out does not change what the interceptors do: [signOut]
    leaves [this.authPayload] and the payload objects alone, so an
    interceptor that is still attached keeps sending the token of the
    session that was signed out. *)
Theorem interceptors_survive_signOut
    (w : World) (config : RequestConfig) (failedRequest : AxiosError) :
  onRequest (fst (signOut w)) config = onRequest w config /\
  onFailedRequest (fst (signOut w)) failedRequest = onFailedRequest w failedRequest.
Proof.
  rewrite signOut_run. cbn [fst]. unfold onRequest, onFailedRequest.
  by rewrite signed_out_authPayload, signed_out_heap.
Qed.

(** ** The event bus *)

Lemma emitter_off_middle (event : AuthEvent) (cb : callback)
    (ls rest : list (AuthEvent * callback)) :
  (event, cb) ∉ ls ->
  emitter_off event cb (ls ++ (event, cb) :: rest) = ls ++ rest.
Proof.
  induction ls as [|r ls IH]; intros Hnot; cbn.
  - by rewrite decide_True.
  - apply not_elem_of_cons in Hnot as [Hne Hnot].
    rewrite decide_False by congruence. by rewrite IH.
Qed.

Lemma emitter_off_other_event (event event' : AuthEvent) (cb : callback)
    (ls : list (AuthEvent * callback)) :
  event' <> event ->
  filter (fun r => fst r = event') (emitter_off event cb ls)
  = filter (fun r => fst r = event') ls.
Proof.
  intros Hne. induction ls as [|[ev c] ls IH]; [reflexivity |].
  cbn [emitter_off].
  destruct (decide ((ev, c) = (event, cb))) as [[= -> ->]|Hd].
  - by rewrite filter_cons_False by (cbn; congruence).
  - by rewrite !filter_cons, IH.
Qed.

Lemma emitter_listeners_app (event : AuthEvent)
    (ls1 ls2 : list (AuthEvent * callback)) (m1 m2 : gmap AuthEvent Unsubscribe) :
  emitter_listeners event (mkEventBus (ls1 ++ ls2) m1) =
  emitter_listeners event (mkEventBus ls1 m2)
    ++ emitter_listeners event (mkEventBus ls2 m2).
Proof. unfold emitter_listeners. cbn. by rewrite filter_app, map_app. Qed.

Lemma emitter_listeners_single (event : AuthEvent) (cb : callback)
    (m : gmap AuthEvent Unsubscribe) :
  emitter_listeners event (mkEventBus [(event, cb)] m) = [cb].
Proof.
  unfold emitter_listeners. cbn [listeners].
  by rewrite filter_cons_True by done.
Qed.

(** X18: [subscribe] followed by [unsubscribe(event)], or by a call of the
    function [subscribe] returned, removes the listener again and leaves
    the emitter as it was.  The slot of the event is left empty: a
    subscription the slot held before is no longer tracked. *)
Theorem subscribe_unsubscribe_round_trip
    (event : AuthEvent) (cb : callback) (b : EventBus) :
  (event, cb) ∉ listeners b ->
  let b1 := fst (subscribe event cb b) in
  let returned := snd (subscribe event cb b) in
  unsubscribe event b1 = mkEventBus (listeners b) (delete event (subscribers b)) /\
  call_unsubscribe returned b1 = unsubscribe event b1.
Proof.
  intros Hnot b1 returned. subst b1 returned.
  unfold unsubscribe, subscribe, call_unsubscribe, emitter_on. cbn.
  rewrite lookup_insert_eq. cbn.
  rewrite (emitter_off_middle event cb (listeners b) [] Hnot), app_nil_r.
  by rewrite delete_insert_eq.
Qed.

Lemma subscribe_unsubscribe_witness :
  unsubscribe SIGNIN (fst (subscribe SIGNIN 1%nat (mkEventBus [] ∅)))
  = mkEventBus [] (delete SIGNIN ∅).
Proof.
  refine (proj1 (subscribe_unsubscribe_round_trip SIGNIN 1%nat (mkEventBus [] ∅) _)).
  apply not_elem_of_nil.
Defined.

(** X19: the class tracks one subscription per event.  After two
    subscriptions to the same event, [unsubscribe(event)] removes the
    second listener only: the first keeps receiving the event, the slot is
    empty, and a further [unsubscribe(event)] does nothing. *)
Theorem second_subscription_hides_first
    (event : AuthEvent) (first second : callback) (b : EventBus) :
  first <> second ->
  (event, second) ∉ listeners b ->
  let b2 := fst (subscribe event second (fst (subscribe event first b))) in
  let b3 := unsubscribe event b2 in
  emitter_listeners event b3 = emitter_listeners event b ++ [first] /\
  subscribers b3 !! event = None /\
  unsubscribe event b3 = b3.
Proof.
  intros Hne Hnot b2 b3.
  assert (Hnot' : (event, second) ∉ listeners b ++ [(event, first)]).
  { rewrite not_elem_of_app. split; [exact Hnot |].
    rewrite list_elem_of_singleton. congruence. }
  assert (E : b3 = mkEventBus (listeners b ++ [(event, first)])
                     (delete event (subscribers b2))).
  { subst b3 b2. unfold unsubscribe, subscribe, call_unsubscribe, emitter_on. cbn.
    rewrite lookup_insert_eq. cbn.
    by rewrite (emitter_off_middle event second _ [] Hnot'), app_nil_r. }
  rewrite E. clear E b3. split.
  - by rewrite (emitter_listeners_app event _ _ _ (subscribers b)),
      emitter_listeners_single.
  - split; [apply lookup_delete_eq |].
    unfold unsubscribe. cbn. by rewrite lookup_delete_eq.
Qed.

Lemma second_subscription_witness :
  let b2 := fst (subscribe SIGNIN 2%nat (fst (subscribe SIGNIN 1%nat (mkEventBus [] ∅)))) in
  emitter_listeners SIGNIN (unsubscribe SIGNIN b2) = [1%nat].
Proof.
  cbv zeta.
  refine (proj1 (second_subscription_hides_first SIGNIN 1%nat 2%nat
                   (mkEventBus [] ∅) _ _)).
  - discriminate.
  - apply not_elem_of_nil.
Defined.

(** X20: the function returned by an earlier [subscribe] also empties the
    slot of its event.  Called after a second subscription to the same
    event, it removes the first listener and drops the tracking of the
    second, which [unsubscribe(event)] can then no longer remove. *)
Theorem stale_unsubscribe_drops_later_subscription
    (event : AuthEvent) (first second : callback) (b : EventBus) :
  first <> second ->
  (event, first) ∉ listeners b ->
  let b1 := fst (subscribe event first b) in
  let returned := snd (subscribe event first b) in
  let b2 := fst (subscribe event second b1) in
  let b3 := call_unsubscribe returned b2 in
  emitter_listeners event b3 = emitter_listeners event b ++ [second] /\
  subscribers b3 !! event = None /\
  unsubscribe event b3 = b3.
Proof.
  intros Hne Hnot b1 returned b2 b3.
  assert (E : b3 = mkEventBus (listeners b ++ [(event, second)])
                     (delete event (subscribers b2))).
  { subst b3 b2 returned b1. unfold subscribe, call_unsubscribe, emitter_on. cbn.
    rewrite <- app_assoc. cbn.
    by rewrite (emitter_off_middle event first _ [(event, second)] Hnot). }
  rewrite E. clear E b3. split.
  - by rewrite (emitter_listeners_app event _ _ _ (subscribers b)),
      emitter_listeners_single.
  - split; [apply lookup_delete_eq |].
    unfold unsubscribe. cbn. by rewrite lookup_delete_eq.
Qed.

Lemma stale_unsubscribe_witness :
  let b0 := mkEventBus [] ∅ in
  let b2 := fst (subscribe SIGNIN 2%nat (fst (subscribe SIGNIN 1%nat b0))) in
  emitter_listeners SIGNIN (call_unsubscribe (snd (subscribe SIGNIN 1%nat b0)) b2)
  = [2%nat].
Proof.
  cbv zeta.
  refine (proj1 (stale_unsubscribe_drops_later_subscription SIGNIN 1%nat 2%nat
                   (mkEventBus [] ∅) _ _)).
  - discriminate.
  - apply not_elem_of_nil.
Defined.

Lemma slots_match_empty : slots_match (mkEventBus [] ∅).
Proof. intros event u H. cbn in H. by rewrite lookup_empty in H. Qed.

Lemma slots_match_subscribe (event : AuthEvent) (cb : callback) (b : EventBus) :
  slots_match b -> slots_match (fst (subscribe event cb b)).
Proof.
  intros Hb ev u. cbn. rewrite lookup_insert.
  destruct (decide (event = ev)) as [->|Hne]; [by intros [= <-] | apply Hb].
Qed.

Lemma slots_match_call_unsubscribe (u : Unsubscribe) (b : EventBus) :
  slots_match b -> slots_match (call_unsubscribe u b).
Proof.
  intros Hb ev u'. cbn. rewrite lookup_delete.
  destruct (decide (unsub_event u = ev)); [discriminate | apply Hb].
Qed.

Lemma slots_match_unsubscribe (event : AuthEvent) (b : EventBus) :
  slots_match b -> slots_match (unsubscribe event b).
Proof.
  intros Hb. unfold unsubscribe.
  destruct (subscribers b !! event); [by apply slots_match_call_unsubscribe | exact Hb].
Qed.

(** X21: events do not interfere.  On a bus built with [subscribe] and
    [unsubscribe] (every slot holds a closure made for its own event),
    subscribing to or unsubscribing from one event changes neither the
    listeners nor the slot of any other event. *)
Theorem other_events_are_untouched
    (event other : AuthEvent) (cb : callback) (b : EventBus) :
  slots_match b ->
  other <> event ->
  (emitter_listeners other (fst (subscribe event cb b)) = emitter_listeners other b /\
   subscribers (fst (subscribe event cb b)) !! other = subscribers b !! other) /\
  (emitter_listeners other (unsubscribe event b) = emitter_listeners other b /\
   subscribers (unsubscribe event b) !! other = subscribers b !! other).
Proof.
  intros Hb Hne. split.
  - split.
    + unfold emitter_listeners, subscribe, emitter_on. cbn.
      rewrite filter_app, filter_cons_False by (cbn; congruence).
      by rewrite app_nil_r.
    + cbn. by rewrite lookup_insert_ne.
  - unfold unsubscribe. destruct (subscribers b !! event) as [u|] eqn:Hu; [| done].
    pose proof (Hb _ _ Hu) as Hev.
    unfold emitter_listeners, call_unsubscribe. cbn. rewrite Hev. split.
    + by rewrite emitter_off_other_event.
    + by rewrite lookup_delete_ne.
Qed.

Lemma other_events_witness :
  let b := fst (subscribe SETUSER 3%nat (mkEventBus [] ∅)) in
  emitter_listeners SETUSER (unsubscribe SIGNIN (fst (subscribe SIGNIN 1%nat b)))
  = [3%nat].
Proof.
  cbv zeta.
  pose proof (other_events_are_untouched SIGNIN SETUSER 1%nat
                (fst (subscribe SIGNIN 1%nat (fst (subscribe SETUSER 3%nat
                                                     (mkEventBus [] ∅)))))) as H.
  destruct H as [_ [H _]].
  - apply slots_match_subscribe, slots_match_subscribe, slots_match_empty.
  - discriminate.
  - rewrite H. reflexivity.
Defined.

(** ** The stored string determines the payload *)



Lemma JSON_unescape_quote (rest : string) :
  JSON_unescape_head (String dquote rest) = None.
Proof. reflexivity. Qed.






(** ** More on the middleware *)

Lemma applyAxiosMiddleware_other_client (c c' : client) (w : World) :
  c' <> c -> clients (fst (applyAxiosMiddleware c w)) c' = clients w c'.
Proof.
  intros Hne.
  unfold applyAxiosMiddleware, bind, get, modify, response_use, request_use,
    InterceptorManager_use.
  cbn. by rewrite !upd_other.
Qed.

Lemma signed_out_other_client (w : World) (c : client) :
  axiosInstance (this w) <> Some c -> clients (signed_out w) c = clients w c.
Proof.
  intros Hne. unfold signed_out. world_fields.
  by rewrite after_eject_other_client.
Qed.

(** X25: [signOut] ejects from the client passed to the last
    [applyAxiosMiddleware] only.  With the middleware applied to a client
    [c1] and then to another client [c2], signing out leaves [c1] exactly
    as it was, with both of its interceptors attached. *)
Theorem signOut_reaches_last_client_only (w : World) (c1 c2 : client) :
  c1 <> c2 ->
  let w2 := fst (applyAxiosMiddleware c2 (fst (applyAxiosMiddleware c1 w))) in
  let w' := fst (signOut w2) in
  clients w' c1 = clients w2 c1 /\
  request_handlers (clients w' c1) =
    request_handlers (clients w c1) ++ [Some AuthorizationInterceptor] /\
  response_handlers (clients w' c1) =
    response_handlers (clients w c1) ++ [Some AuthRefreshInterceptor] /\
  axiosInterceptorEjectIds (this w') = [].
Proof.
  intros Hne. cbv zeta.
  destruct (applyAxiosMiddleware_run c1 w) as (_ & Hresp & Hreq & _).
  pose proof (applyAxiosMiddleware_other_client c2 c1
                (fst (applyAxiosMiddleware c1 w)) Hne) as Hother.
  destruct (applyAxiosMiddleware_run c2 (fst (applyAxiosMiddleware c1 w)))
    as (Hinst & _).
  generalize dependent (fst (applyAxiosMiddleware c1 w)). intros w1 Hresp Hreq.
  generalize (fst (applyAxiosMiddleware c2 w1)). intros w2 Hother Hinst.
  rewrite signOut_run. cbn [fst].
  rewrite signed_out_ids, signed_out_other_client by (rewrite Hinst; congruence).
  rewrite Hother, Hresp, Hreq. by repeat split.
Qed.

Lemma signOut_last_client_witness :
  let w' := fst (signOut two_clients) in
  request_handlers (clients w' 0%nat) = [Some AuthorizationInterceptor] /\
  response_handlers (clients w' 0%nat) = [Some AuthRefreshInterceptor].
Proof.
  pose proof (signOut_reaches_last_client_only signed_in 0%nat 1%nat
                ltac:(discriminate)) as H.
  cbv zeta in H. destruct H as (_ & H2 & H3 & _).
  split; [exact H2 | exact H3].
Defined.

(** X26: [applyAxiosMiddleware] does not notice that it has been applied
    before: a second call on the same client registers a second refresh
    interceptor and a second request interceptor and records two more
    ids. *)
Theorem applyAxiosMiddleware_twice (w : World) (c : client) :
  let w2 := fst (applyAxiosMiddleware c (fst (applyAxiosMiddleware c w))) in
  response_handlers (clients w2 c) =
    response_handlers (clients w c)
      ++ [Some AuthRefreshInterceptor; Some AuthRefreshInterceptor] /\
  request_handlers (clients w2 c) =
    request_handlers (clients w c)
      ++ [Some AuthorizationInterceptor; Some AuthorizationInterceptor] /\
  axiosInterceptorEjectIds (this w2) =
    axiosInterceptorEjectIds (this w)
      ++ [length (response_handlers (clients w c));
          length (request_handlers (clients w c));
          S (length (response_handlers (clients w c)));
          S (length (request_handlers (clients w c)))].
Proof.
  cbv zeta.
  destruct (applyAxiosMiddleware_run c w) as (_ & R1 & Q1 & I1).
  destruct (applyAxiosMiddleware_run c (fst (applyAxiosMiddleware c w)))
    as (_ & R2 & Q2 & I2).
  rewrite R2, Q2, I2, R1, Q1, I1, !length_app, <- !app_assoc. cbn.
  rewrite !Nat.add_1_r. by repeat split.
Qed.

(** ** Empty options *)

(** X27: the constructor tests [key] and [scope] for truthiness: an empty
    key is replaced by the default key and an empty scope adds no prefix,
    exactly as if they had not been given. *)
Theorem empty_key_and_scope_count_as_absent
    (localStorage : Storage) (authz : User -> Promise (option AuthPayload))
    (cb : option (unit -> Promise unit)) (st : option Storage)
    (key scope : option string) :
  constructor localStorage
    (mkAuthConfigOptions authz cb
       (Some (mkAuthStorageOptions (Some EmptyString) st)) scope)
  = constructor localStorage
      (mkAuthConfigOptions authz cb (Some (mkAuthStorageOptions None st)) scope) /\
  constructor localStorage
    (mkAuthConfigOptions authz cb
       (Some (mkAuthStorageOptions key st)) (Some EmptyString))
  = constructor localStorage
      (mkAuthConfigOptions authz cb (Some (mkAuthStorageOptions key st)) None).
Proof. by split. Qed.
